(** * Climate-Analysis: a shallow embedding of [climate.c]

    The program reads tab-delimited climate observations, folds them into a
    fixed table of per-state accumulators and prints a report.  This file
    embeds the three functions of [climate.c] ([main], [analyze_file],
    [print_report]) together with the parts of the C library they rely on
    ([fgets], [strlen], [sscanf], [strcmp], [strncpy], [calloc]) and proves
    the properties of the specification against that embedding.

    Modelling conventions.
    - C strings and file contents are [list ascii].
    - [unsigned long] and [unsigned long long] are 64 bits wide (LP64); the
      wrap-around of every increment is written out.  The [int] counter
      [lines_processed] wraps in two's complement, the behaviour of the
      usual compilers where ISO C leaves the overflow undefined.
    - The C library is glibc and the machine an x86-64 one: [double] is the
      binary64 format of IEEE 754 and [long double] the extended format of
      the x87 unit (a significand of 64 bits).  A finite value is the
      rational it denotes, beside the two infinities and NaN; [strtod]
      and every [long double] operation round to nearest, ties to even,
      overflow to an infinity and underflow through the subnormal numbers
      to zero.  The two zeros are one value and NaN has no sign: the
      program compares the numbers it reads, adds them to sums that start
      at [+0] and prints them only after an average or a conversion to
      Fahrenheit, so that it never tells the two zeros apart.
    - [sscanf] is the one of glibc.  [%lf] reads the characters that can
      go on a number (digits, one radix point, an exponent letter after a
      digit, a sign right after that letter) and hands them to [strtod],
      which converts the longest prefix it can: an exponent letter without
      digits is read and ignored, [nan] is never followed by a
      parenthesised sequence.
    - [calloc] is driven by an oracle that lists the outcome of the coming
      allocation requests.
    - The text written by [printf] is kept as a list of items, one per
      literal piece of the format and one per converted argument, so that
      no rendering of floating-point numbers or calendar dates is needed. *)

From Stdlib Require Import ZArith QArith Qreduction List Ascii String Bool Lia Lqa.
Import ListNotations.

Local Open Scope Z_scope.

(** ** Floating-point values *)

(** [b ^ e] for any integer [e]. *)
Definition pow_Q (b e : Z) : Q :=
  if 0 <=? e then inject_Z (b ^ e) else Qmake 1 (Z.to_pos (b ^ (- e))).

Module Fp.

Inductive fp : Type :=
| Fin (q : Q)
| PInf
| NInf
| NaN.

Definition of_Z (z : Z) : fp := Fin (inject_Z z).

(** A binary format: the number of bits of the significand, the exponent
    of the least positive number and the exponent of the least power of
    two that is out of range. *)
Record format : Type := {
  prec : Z;
  emin : Z;
  emax : Z
}.

Definition binary64 : format := {| prec := 53; emin := -1074; emax := 1024 |}.

Definition x87_extended : format :=
  {| prec := 64; emin := -16445; emax := 16384 |}.

(** The integer nearest to [n / d] for [0 <= n] and [0 < d], the even one
    of two that are equally near. *)
Definition nearest_even (n d : Z) : Z :=
  let k := n / d in
  match 2 * (n mod d) ?= d with
  | Lt => k
  | Gt => k + 1
  | Eq => if Z.even k then k else k + 1
  end.

(** The exponent [e] with [2^e <= q < 2^(e+1)], for [0 < q]. *)
Definition ilog2 (q : Q) : Z :=
  let e := Z.log2 (Qnum q) - Z.log2 (Zpos (Qden q)) in
  if Qle_bool (pow_Q 2 e) q then e else e - 1.

(** The exponent of the unit in the last place of the numbers near [q]. *)
Definition ulp_exp (f : format) (q : Q) : Z :=
  Z.max (ilog2 q - prec f + 1) (emin f).

(** Rounding of a positive rational; [None] when the result is out of
    range. *)
Definition round_pos (f : format) (q : Q) : option Q :=
  let u := ulp_exp f q in
  let x := Qmult q (pow_Q 2 (- u)) in
  let m := nearest_even (Qnum x) (Zpos (Qden x)) in
  if 2 ^ (emax f - u) <=? m then None
  else Some (Qred (Qmult (inject_Z m) (pow_Q 2 u))).

(** The number of the format nearest to [q]. *)
Definition round (f : format) (q : Q) : fp :=
  match Qcompare q 0 with
  | Eq => Fin 0
  | Gt => match round_pos f q with Some r => Fin r | None => PInf end
  | Lt => match round_pos f (Qopp q) with Some r => Fin (Qopp r) | None => NInf end
  end.

(** The [double] and the [long double] nearest to a rational. *)
Definition double (q : Q) : fp := round binary64 q.
Definition ldouble (q : Q) : fp := round x87_extended q.

(** [x < y] of C: false as soon as one operand is NaN. *)
Definition lt (x y : fp) : bool :=
  match x, y with
  | NaN, _ => false
  | _, NaN => false
  | _, NInf => false
  | PInf, _ => false
  | NInf, _ => true
  | Fin _, PInf => true
  | Fin a, Fin b => match Qcompare a b with Lt => true | _ => false end
  end.

(** [x == y] of C. *)
Definition eqb (x y : fp) : bool :=
  match x, y with
  | Fin a, Fin b => match Qcompare a b with Eq => true | _ => false end
  | PInf, PInf => true
  | NInf, NInf => true
  | _, _ => false
  end.

Definition opp (x : fp) : fp :=
  match x with
  | Fin q => Fin (Qopp q)
  | PInf => NInf
  | NInf => PInf
  | NaN => NaN
  end.

(** The operations below are those of [long double]. *)
Definition add (x y : fp) : fp :=
  match x, y with
  | NaN, _ => NaN
  | _, NaN => NaN
  | PInf, NInf => NaN
  | NInf, PInf => NaN
  | PInf, _ => PInf
  | _, PInf => PInf
  | NInf, _ => NInf
  | _, NInf => NInf
  | Fin a, Fin b => ldouble (Qplus a b)
  end.

Definition sub (x y : fp) : fp := add x (opp y).

(** The infinity whose sign is that of [c], NaN for a zero sign. *)
Definition inf_of (c : comparison) : fp :=
  match c with Gt => PInf | Lt => NInf | Eq => NaN end.

Definition sign (x : fp) : comparison :=
  match x with
  | Fin q => Qcompare q 0
  | PInf => Gt
  | NInf => Lt
  | NaN => Eq
  end.

Definition sign_mul (a b : comparison) : comparison :=
  match a, b with
  | Eq, _ => Eq
  | _, Eq => Eq
  | Gt, c => c
  | Lt, c => CompOpp c
  end.

Definition mul (x y : fp) : fp :=
  match x, y with
  | NaN, _ => NaN
  | _, NaN => NaN
  | Fin a, Fin b => ldouble (Qmult a b)
  | _, _ => inf_of (sign_mul (sign x) (sign y))
  end.

(** Division; a zero divisor is the positive zero, the only one the
    program can produce (an unsigned count converted to [long double]). *)
Definition div (x y : fp) : fp :=
  match x, y with
  | NaN, _ => NaN
  | _, NaN => NaN
  | Fin a, Fin b =>
      match Qcompare b 0 with
      | Eq => inf_of (Qcompare a 0)
      | _ => ldouble (Qdiv a b)
      end
  | Fin _, _ => Fin 0
  | _, Fin b =>
      match Qcompare b 0 with
      | Lt => opp x
      | _ => x
      end
  | _, _ => NaN
  end.

(** [DBL_MAX] of <float.h>: (2^53 - 1) * 2^971. *)
Definition DBL_MAX : fp := of_Z ((2 ^ 53 - 1) * 2 ^ 971).

End Fp.

Arguments Fp.lt : simpl never.
Arguments Fp.eqb : simpl never.
Arguments Fp.add : simpl never.
Arguments Fp.of_Z : simpl never.
Arguments Fp.DBL_MAX : simpl never.
Arguments Fp.round : simpl never.
Arguments Fp.double : simpl never.
Arguments Fp.ldouble : simpl never.

(** ** Characters and C strings *)

Definition cstring := list ascii.

Definition TAB : ascii := "009"%char.
Definition LF : ascii := "010"%char.
Definition NUL : ascii := "000"%char.

Definition code_of (c : ascii) : Z := Z.of_N (N_of_ascii c).

(** <ctype.h>, "C" locale. *)
Definition isspace (c : ascii) : bool :=
  let n := code_of c in (n =? 32) || ((9 <=? n) && (n <=? 13)).

Definition isdigit (c : ascii) : bool :=
  let n := code_of c in (48 <=? n) && (n <=? 57).

Definition isupper (c : ascii) : bool :=
  let n := code_of c in (65 <=? n) && (n <=? 90).

Definition tolower (c : ascii) : ascii :=
  if isupper c then ascii_of_N (N_of_ascii c + 32) else c.

Definition isxdigit (c : ascii) : bool :=
  let n := code_of (tolower c) in isdigit c || ((97 <=? n) && (n <=? 102)).

Definition digit_value (c : ascii) : Z := code_of c - 48.

Definition xdigit_value (c : ascii) : Z :=
  if isdigit c then code_of c - 48 else code_of (tolower c) - 87.

(** The C string held by a buffer: the characters before the first NUL. *)
Fixpoint c_str (buf : list ascii) : cstring :=
  match buf with
  | [] => []
  | c :: buf' => if Ascii.eqb c NUL then [] else c :: c_str buf'
  end.

Definition strlen (buf : list ascii) : Z := Z.of_nat (List.length (c_str buf)).

(** [strcmp] of two C strings: negative, zero or positive. *)
Fixpoint strcmp (a b : cstring) : Z :=
  match a, b with
  | [], [] => 0
  | [], d :: _ => 0 - code_of d
  | c :: _, [] => code_of c
  | c :: a', d :: b' =>
      if Ascii.eqb c d then strcmp a' b' else code_of c - code_of d
  end.

(** [strncpy(dst, src, n)] into a zeroed buffer, read back as a C string. *)
Definition strncpy (src : cstring) (n : nat) : cstring := firstn n src.

(** ** Machine integers *)

Definition ULONG_MAX : Z := 2 ^ 64 - 1.
Definition ULLONG_MAX : Z := 2 ^ 64 - 1.
Definition INT_MAX : Z := 2 ^ 31 - 1.

(** Reduction of an [unsigned long] result. *)
Definition wrap_ulong (z : Z) : Z := z mod 2 ^ 64.

(** Reduction of an [int] result, two's complement. *)
Definition wrap_int (z : Z) : Z := (z + 2 ^ 31) mod 2 ^ 32 - 2 ^ 31.

(** ** [sscanf]

    Every conversion of the format used by the program ([%s], [%llu],
    [%lf]) first skips white space and then reads inside the run of
    non-white-space characters that follows: none of them ever consumes a
    white-space character.  [next_token] isolates that run. *)

Notation "' p <- c1 ;; c2" :=
  (match c1 with Some p => c2 | None => None end)
  (at level 61, p pattern, c1 at next level, right associativity).

Fixpoint skip_space (s : list ascii) : list ascii :=
  match s with
  | c :: s' => if isspace c then skip_space s' else s
  | [] => []
  end.

Fixpoint span (p : ascii -> bool) (s : list ascii) : list ascii * list ascii :=
  match s with
  | c :: s' =>
      if p c then let (a, b) := span p s' in (c :: a, b) else ([], s)
  | [] => ([], [])
  end.

Definition next_token (s : list ascii) : list ascii * list ascii :=
  span (fun c => negb (isspace c)) (skip_space s).

(** [%<w>s]: at most [w] non-white-space characters; an input failure when
    the input is exhausted. *)
Definition conv_s (w : nat) (s : list ascii) : option (cstring * list ascii) :=
  let (tok, rest) := next_token s in
  match tok with
  | [] => None
  | _ => Some (firstn w tok, skipn w tok ++ rest)
  end.

Definition scan_sign (s : list ascii) : bool * list ascii :=
  match s with
  | c :: s' =>
      if Ascii.eqb c "-" then (true, s')
      else if Ascii.eqb c "+" then (false, s') else (false, s)
  | [] => (false, [])
  end.

Definition decimal_value (ds : list ascii) : Z :=
  fold_left (fun acc c => 10 * acc + digit_value c) ds 0.

Definition hex_value (ds : list ascii) : Z :=
  fold_left (fun acc c => 16 * acc + xdigit_value c) ds 0.

(** The value [strtoull] gives to a sign and a digit string: [ULLONG_MAX]
    when the digits are out of range, the negation modulo 2^64 for a minus
    sign. *)
Definition strtoull_value (neg : bool) (ds : list ascii) : Z :=
  let v := decimal_value ds in
  if ULLONG_MAX <? v then ULLONG_MAX
  else if neg then (2 ^ 64 - v) mod 2 ^ 64 else v.

Definition scan_llu (tok : list ascii) : option (Z * list ascii) :=
  let (neg, s1) := scan_sign tok in
  let (ds, s2) := span isdigit s1 in
  match ds with
  | [] => None
  | _ => Some (strtoull_value neg ds, s2)
  end.

(** [%llu] *)
Definition conv_llu (s : list ascii) : option (Z * list ascii) :=
  let (tok, rest) := next_token s in
  '(v, r) <- scan_llu tok ;;
  Some (v, r ++ rest).

(** [pat] (lower case) stripped from the front of [s], letter case ignored. *)
Fixpoint strip_ci (pat s : list ascii) : option (list ascii) :=
  match pat, s with
  | [], _ => Some s
  | p :: pat', c :: s' =>
      if Ascii.eqb (tolower c) p then strip_ci pat' s' else None
  | _ :: _, [] => None
  end.

(** Number of leading characters of [s] that continue [pat]. *)
Fixpoint common_ci (pat s : list ascii) : nat :=
  match pat, s with
  | p :: pat', c :: s' =>
      if Ascii.eqb (tolower c) p then S (common_ci pat' s') else O
  | _, _ => O
  end.

(** The [double] nearest to [m * b^e]. *)
Definition scaled (m b e : Z) : Fp.fp :=
  Fp.double (Qmult (inject_Z m) (pow_Q b e)).

(** The exponent part that may follow the digits of a number: the letter
    [mark], a sign, decimal digits.  The letter and the sign are read
    also when no digit follows them; [strtod] then leaves them out and
    the exponent is 0. *)
Definition scan_exponent (mark : ascii) (s : list ascii) : Z * list ascii :=
  match s with
  | c :: s' =>
      if Ascii.eqb (tolower c) mark then
        let (neg, s1) := scan_sign s' in
        let (ds, s2) := span isdigit s1 in
        (if neg then - decimal_value ds else decimal_value ds, s2)
      else (0, s)
  | [] => (0, [])
  end.

(** Digits with an optional radix point: the integer digits, the
    fraction digits, whether a point was read, and the rest. *)
Definition scan_mantissa (dig : ascii -> bool) (s : list ascii)
  : list ascii * list ascii * bool * list ascii :=
  let (ip, s1) := span dig s in
  match s1 with
  | c :: s1' =>
      if Ascii.eqb c "." then let (fr, s2) := span dig s1' in (ip, fr, true, s2)
      else (ip, [], false, s1)
  | [] => (ip, [], false, [])
  end.

(** A decimal number: there must be a digit on one side of the point. *)
Definition scan_decimal (s : list ascii) : option (Fp.fp * list ascii) :=
  let '(ip, fr, _, s1) := scan_mantissa isdigit s in
  match ip ++ fr with
  | [] => None
  | ds =>
      let (e, s2) := scan_exponent "e" s1 in
      Some (scaled (decimal_value ds) 10 (e - Z.of_nat (List.length fr)), s2)
  end.

(** What follows the prefix [0x].  Without any hexadecimal digit the
    conversion fails when nothing was read after the prefix; a lone point
    is read, and [strtod] converts the [0] of the prefix. *)
Definition scan_hex (s : list ascii) : option (Fp.fp * list ascii) :=
  let '(ip, fr, point, s1) := scan_mantissa isxdigit s in
  match ip ++ fr with
  | [] => if point then Some (Fp.Fin 0, s1) else None
  | ds =>
      let (e, s2) := scan_exponent "p" s1 in
      Some (scaled (hex_value ds) 2 (e - 4 * Z.of_nat (List.length fr)), s2)
  end.

Definition lit (s : string) : list ascii := list_ascii_of_string s.

(** What [%lf] reads after the sign: [inf] or [infinity], [nan], a
    hexadecimal or a decimal number. *)
Definition scan_unsigned_lf (s : list ascii) : option (Fp.fp * list ascii) :=
  match strip_ci (lit "inf") s with
  | Some s1 =>
      match common_ci (lit "inity") s1 with
      | 0%nat => Some (Fp.PInf, s1)
      | 5%nat => Some (Fp.PInf, skipn 5 s1)
      | _ => None
      end
  | None =>
      match strip_ci (lit "nan") s with
      | Some s1 => Some (Fp.NaN, s1)
      | None =>
          match strip_ci (lit "0x") s with
          | Some s1 => scan_hex s1
          | None => scan_decimal s
          end
      end
  end.

Definition scan_lf (tok : list ascii) : option (Fp.fp * list ascii) :=
  let (neg, s1) := scan_sign tok in
  '(v, s2) <- scan_unsigned_lf s1 ;;
  Some (if neg then Fp.opp v else v, s2).

(** [%lf] *)
Definition conv_lf (s : list ascii) : option (Fp.fp * list ascii) :=
  let (tok, rest) := next_token s in
  '(v, r) <- scan_lf tok ;;
  Some (v, r ++ rest).

(** ** Observations and the line parser *)

Definition NUM_STATES : nat := 50.
Definition LINE_BUFFER : Z := 100.

(** The nine variables filled by [sscanf] in [analyze_file]. *)
Record observation : Type := {
  state_code : cstring;
  timestamp : Z;
  geohash : cstring;
  humidity : Fp.fp;
  snow : Fp.fp;
  cloudcover : Fp.fp;
  lightning : Fp.fp;
  pressure : Fp.fp;
  temperature : Fp.fp
}.

(** [sscanf(line, "%2s\t%llu\t%12s\t%lf\t%lf\t%lf\t%lf\t%lf\t%lf", ...)]:
    [Some] exactly when the call returns 9.  A white-space character of the
    format matches any amount of white space, none included. *)
Definition sscanf_tdv (line : cstring) : option observation :=
  '(c, s) <- conv_s 2 line ;;
  '(ts, s) <- conv_llu (skip_space s) ;;
  '(g, s) <- conv_s 12 (skip_space s) ;;
  '(h, s) <- conv_lf (skip_space s) ;;
  '(sn, s) <- conv_lf (skip_space s) ;;
  '(cl, s) <- conv_lf (skip_space s) ;;
  '(li, s) <- conv_lf (skip_space s) ;;
  '(pr, s) <- conv_lf (skip_space s) ;;
  '(te, _) <- conv_lf (skip_space s) ;;
  Some {| state_code := c; timestamp := ts; geohash := g; humidity := h;
          snow := sn; cloudcover := cl; lightning := li; pressure := pr;
          temperature := te |}.

(** The range test of [analyze_file]: true when the line must be skipped. *)
Definition out_of_range (o : observation) : bool :=
  Fp.lt (humidity o) (Fp.of_Z 0) || Fp.lt (Fp.of_Z 100) (humidity o) ||
  Fp.lt (cloudcover o) (Fp.of_Z 0) || Fp.lt (Fp.of_Z 100) (cloudcover o) ||
  Fp.lt (temperature o) (Fp.of_Z 0).

(** The first half of the loop body of [analyze_file]: the length guard,
    the call to [sscanf] and the range validation.  [None] stands for each
    of the three [continue] statements. *)
Definition parse_line (line : list ascii) : option observation :=
  if LINE_BUFFER - 1 <=? strlen line then None
  else
    match sscanf_tdv (c_str line) with
    | None => None
    | Some o => if out_of_range o then None else Some o
    end.

(** ** The accumulator table *)

Record climate_info : Type := {
  code : cstring;
  num_records : Z;
  sum_temperature : Fp.fp;
  sum_humidity : Fp.fp;
  sum_cloudcover : Fp.fp;
  lightning_strikes : Z;
  snow_records : Z;
  max_temp_time : Z;
  min_temp_time : Z;
  max_temp : Fp.fp;
  min_temp : Fp.fp
}.

(** [struct climate_info *states[num_states]]: a slot is [None] while its
    pointer is [NULL]; [num_states] is the length of the list. *)
Definition table := list (option climate_info).

(** The entry [analyze_file] builds in a vacant slot: zeroed by [calloc],
    then given its code and the two sentinels. *)
Definition new_info (state_code : cstring) : climate_info :=
  {| code := strncpy state_code 2;
     num_records := 0;
     sum_temperature := Fp.of_Z 0;
     sum_humidity := Fp.of_Z 0;
     sum_cloudcover := Fp.of_Z 0;
     lightning_strikes := 0;
     snow_records := 0;
     max_temp_time := 0;
     min_temp_time := 0;
     max_temp := Fp.opp Fp.DBL_MAX;
     min_temp := Fp.DBL_MAX |}.

(** "Update state info" in [analyze_file]. *)
Definition update_info (info : climate_info) (o : observation) : climate_info :=
  {| code := code info;
     num_records := wrap_ulong (num_records info + 1);
     sum_temperature := Fp.add (sum_temperature info) (temperature o);
     sum_humidity := Fp.add (sum_humidity info) (humidity o);
     sum_cloudcover := Fp.add (sum_cloudcover info) (cloudcover o);
     lightning_strikes :=
       wrap_ulong (lightning_strikes info
                   + (if Fp.lt (Fp.of_Z 0) (lightning o) then 1 else 0));
     snow_records :=
       wrap_ulong (snow_records info
                   + (if Fp.lt (Fp.of_Z 0) (snow o) then 1 else 0));
     max_temp_time :=
       if Fp.lt (max_temp info) (temperature o)
       then timestamp o / 1000 else max_temp_time info;
     min_temp_time :=
       if Fp.lt (temperature o) (min_temp info)
       then timestamp o / 1000 else min_temp_time info;
     max_temp :=
       if Fp.lt (max_temp info) (temperature o)
       then temperature o else max_temp info;
     min_temp :=
       if Fp.lt (temperature o) (min_temp info)
       then temperature o else min_temp info |}.

(** The allocator: the outcomes of the coming calls to [calloc], [true]
    for a block; once the list is used up every call succeeds. *)
Definition heap := list bool.

Definition calloc (h : heap) : bool * heap :=
  match h with
  | [] => (true, [])
  | b :: h' => (b, h')
  end.

(** "Find or create state entry": the [for] loop, started at index [i]. *)
Inductive search : Type :=
| Found (i : nat) (info : climate_info)
| Vacant (i : nat)
| NoSlot.

Fixpoint find_state (states : table) (state_code : cstring) (i : nat) : search :=
  match states with
  | [] => NoSlot
  | Some info :: rest =>
      if strcmp (code info) state_code =? 0 then Found i info
      else find_state rest state_code (S i)
  | None :: _ => Vacant i
  end.

(** [states[i] = p] *)
Fixpoint store (states : table) (i : nat) (p : option climate_info) : table :=
  match states, i with
  | [], _ => []
  | _ :: rest, O => p :: rest
  | s :: rest, S i' => s :: store rest i' p
  end.

(** One turn of the [while] loop of [analyze_file] on the line just read.
    [Skipped] is any of the [continue] statements, [Folded] the end of the
    body (where [lines_processed] is incremented), [NoMemory] the
    [return -1] taken when [calloc] fails. *)
Inductive outcome : Type := Skipped | Folded | NoMemory.

Definition process_line (h : heap) (states : table) (line : list ascii)
  : outcome * heap * table :=
  match parse_line line with
  | None => (Skipped, h, states)
  | Some o =>
      match find_state states (state_code o) 0 with
      | NoSlot => (Skipped, h, states)
      | Found i info => (Folded, h, store states i (Some (update_info info o)))
      | Vacant i =>
          match calloc h with
          | (false, h') => (NoMemory, h', states)
          | (true, h') =>
              (Folded, h',
               store states i (Some (update_info (new_info (state_code o)) o)))
          end
      end
  end.

(** ** Streams *)

(** An open stream: the characters not read yet. *)
Definition FILE := list ascii.

Fixpoint fgets_chars (n : nat) (f : FILE) : list ascii * FILE :=
  match n, f with
  | S n', c :: f' =>
      if Ascii.eqb c LF then ([c], f')
      else let (l, r) := fgets_chars n' f' in (c :: l, r)
  | _, _ => ([], f)
  end.

(** [fgets(line, size, file)]: at most [size - 1] characters, stopping
    after a newline; [None] at end of file. *)
Definition fgets (size : Z) (f : FILE) : option (list ascii * FILE) :=
  match f with
  | [] => None
  | _ => Some (fgets_chars (Z.to_nat (size - 1)) f)
  end.

(** The lines [fgets(line, LINE_BUFFER, file)] returns in turn until it
    returns [NULL]. *)
Fixpoint read_lines_fuel (fuel : nat) (f : FILE) : list (list ascii) :=
  match fuel with
  | O => []
  | S fuel' =>
      match fgets LINE_BUFFER f with
      | None => []
      | Some (line, f') => line :: read_lines_fuel fuel' f'
      end
  end.

Definition read_lines (f : FILE) : list (list ascii) :=
  read_lines_fuel (S (List.length f)) f.

(** ** Output *)

Inductive item : Type :=
| Txt (s : string)
| Str (s : cstring)
| Lu (n : Z)
| Lf1 (x : Fp.fp)
| Ctime (t : Z).

Inductive event : Type :=
| Stdout (l : list item)
| Stderr (l : list item)
| Fopen (path : cstring) (ok : bool)
| Fclose (path : cstring).

Definition nl : string := String LF EmptyString.

(** ** [analyze_file] *)

(** The [while] loop over the lines of the file, then the final [return]. *)
Fixpoint analyze_lines (lines : list (list ascii)) (h : heap) (states : table)
  (lines_processed : Z) : Z * heap * table * list event :=
  match lines with
  | [] => (if 0 <? lines_processed then 0 else -1, h, states, [])
  | line :: rest =>
      match process_line h states line with
      | (Skipped, h', states') => analyze_lines rest h' states' lines_processed
      | (Folded, h', states') =>
          analyze_lines rest h' states' (wrap_int (lines_processed + 1))
      | (NoMemory, h', states') =>
          (-1, h', states',
           [Stderr [Txt ("Error: Memory allocation failed" ++ nl)]])
      end
  end.

(** [file] is [None] for a [NULL] stream; the result is the returned
    [int], the allocator and the table as the call leaves them, and what
    the call wrote. *)
Definition analyze_file (file : option FILE) (h : heap) (states : table)
  : Z * heap * table * list event :=
  match file, states with
  | None, _ => (-1, h, states, [])
  | _, [] => (-1, h, states, [])
  | Some f, _ => analyze_lines (read_lines f) h states 0
  end.

(** ** [print_report] *)

Definition fahrenheit (k : Fp.fp) : Fp.fp :=
  Fp.add
    (Fp.div (Fp.mul (Fp.sub k (Fp.double (27315 # 100))) (Fp.of_Z 9)) (Fp.of_Z 5))
    (Fp.of_Z 32).

Definition state_block (info : climate_info) : list event :=
  let n := Fp.of_Z (num_records info) in
  [ Stdout [Txt "-- State: "; Str (code info); Txt (" --" ++ nl)];
    Stdout [Txt "Number of Records: "; Lu (num_records info); Txt nl];
    Stdout [Txt "Average Humidity: "; Lf1 (Fp.div (sum_humidity info) n);
            Txt ("%" ++ nl)];
    Stdout [Txt "Average Temperature: ";
            Lf1 (fahrenheit (Fp.div (sum_temperature info) n)); Txt ("F" ++ nl)];
    Stdout [Txt "Max Temperature: "; Lf1 (fahrenheit (max_temp info));
            Txt ("F" ++ nl)];
    Stdout [Txt "Max Temperature on: "; Ctime (max_temp_time info)];
    Stdout [Txt "Min Temperature: "; Lf1 (fahrenheit (min_temp info));
            Txt ("F" ++ nl)];
    Stdout [Txt "Min Temperature on: "; Ctime (min_temp_time info)];
    Stdout [Txt "Lightning Strikes: "; Lu (lightning_strikes info); Txt nl];
    Stdout [Txt "Records with Snow Cover: "; Lu (snow_records info); Txt nl];
    Stdout [Txt "Average Cloud Cover: "; Lf1 (Fp.div (sum_cloudcover info) n);
            Txt ("%" ++ nl)] ].

Definition header_entry (s : option climate_info) : list event :=
  match s with
  | Some info => [Stdout [Str (code info); Txt " "]]
  | None => []
  end.

Definition block_entry (s : option climate_info) : list event :=
  match s with
  | Some info => state_block info
  | None => []
  end.

Definition print_report (states : table) : list event :=
  Stdout [Txt "States found: "] :: flat_map header_entry states
  ++ Stdout [Txt nl] :: flat_map block_entry states.

(** ** [main] *)

Definition EXIT_SUCCESS : Z := 0.
Definition EXIT_FAILURE : Z := 1.

(** The file system: the content of each path that [fopen] can open. *)
Definition filesystem := cstring -> option FILE.

(** The second [for] loop of [main].  [files_processed] is bounded by
    [argc] and cannot overflow. *)
Fixpoint process_files (fs : filesystem) (args : list cstring) (h : heap)
  (states : table) (files_processed : Z) : heap * table * Z * list event :=
  match args with
  | [] => (h, states, files_processed, [])
  | path :: rest =>
      match fs path with
      | None =>
          let '(h', states', n, ev) :=
            process_files fs rest h states files_processed in
          (h', states', n,
           Fopen path false
           :: Stderr [Txt "Unable to open file: "; Str path; Txt nl] :: ev)
      | Some f =>
          let '(rc, h1, states1, ev1) := analyze_file (Some f) h states in
          let '(h', states', n, ev) :=
            process_files fs rest h1 states1
              (if rc =? 0 then files_processed + 1 else files_processed) in
          (h', states', n,
           Fopen path true :: ev1
           ++ (if rc =? 0 then []
               else [Stderr [Txt "Error processing file: "; Str path; Txt nl]])
           ++ Fclose path :: ev)
      end
  end.

Definition opening_notice (path : cstring) : event :=
  Stdout [Txt "Opening file: "; Str path; Txt nl].

(** [argv] holds the program name and the arguments; the result is the
    exit status and everything the process did, in order. *)
Definition main (fs : filesystem) (h : heap) (argv : list cstring)
  : Z * list event :=
  if Z.of_nat (List.length argv) <? 2 then
    (EXIT_FAILURE,
     [Stderr [Txt ("Not enough arguments provided. No file provided to analyze."
                   ++ nl)]])
  else
    let args := tl argv in
    let '(_, states, files_processed, ev) :=
      process_files fs args h (repeat None NUM_STATES) 0 in
    if files_processed =? 0 then
      (EXIT_FAILURE,
       map opening_notice args ++ ev
       ++ [Stderr [Txt ("No valid files were processed." ++ nl)]])
    else
      (EXIT_SUCCESS, map opening_notice args ++ ev ++ print_report states).

(** ** Sample lines *)

(** A line of the given fields, tab separated and newline terminated. *)
Definition tdv (fields : list string) : list ascii :=
  lit (String.concat (String TAB EmptyString) fields) ++ [LF].

Definition scenario_A : list ascii :=
  tdv ["CA"; "1428300000000"; "9prcjqk3yc80"; "93.0"; "0.0"; "100.0"; "0.0";
       "95644.0"; "277.58716"]%string.

(** ** Notions used by the statements *)

(** Folding a sequence of observations into one accumulator. *)
Definition fold_observations (info : climate_info) (os : list observation)
  : climate_info :=
  fold_left update_info os info.

(** The values an [unsigned long] field can hold. *)
Definition ulong_range (z : Z) : Prop := 0 <= z <= ULONG_MAX.

Definition valid_info (info : climate_info) : Prop :=
  ulong_range (num_records info) /\
  ulong_range (lightning_strikes info) /\
  ulong_range (snow_records info).

(** The accumulators a table holds, in slot order. *)
Definition present (states : table) : list climate_info :=
  flat_map (fun s => match s with Some info => [info] | None => [] end) states.

(** A state code as [%2s] delivers it: one or two characters, none NUL. *)
Definition code_ok (c : cstring) : Prop :=
  (1 <= List.length c <= 2)%nat /\ ~ In NUL c.

(** The code a line adds to the log of folded codes. *)
Definition folded_code (line : list ascii) (out : outcome) : list cstring :=
  match out, parse_line line with
  | Folded, Some o => [state_code o]
  | _, _ => []
  end.

(** The tables the program can be in: [reachable n log h states] when
    [states] (with allocator [h]) results from the empty table of [main]
    after [n] turns of the reading loop, [log] being the state codes of
    the lines folded so far, in order. *)
Inductive reachable : nat -> list cstring -> heap -> table -> Prop :=
| reach_start (h : heap) : reachable 0 [] h (repeat None NUM_STATES)
| reach_line (n : nat) (log : list cstring) (h h' : heap)
    (states states' : table) (line : list ascii) (out : outcome) :
    reachable n log h states ->
    process_line h states line = (out, h', states') ->
    reachable (S n) (log ++ folded_code line out) h' states'.

(** The codes of a log in the order of their first occurrence. *)
Definition first_sightings (log : list cstring) : list cstring :=
  fold_left
    (fun seen c => if in_dec (list_eq_dec ascii_dec) c seen then seen
                   else seen ++ [c])
    log [].

(** The shape of the tables of the program: the accumulators fill a
    prefix of the slots, their codes are the first sightings of the log,
    and each has counted at least one and at most [n] records. *)
Definition table_inv (n : nat) (log : list cstring) (states : table) : Prop :=
  exists infos k,
    states = map Some infos ++ repeat None k /\
    (List.length infos + k = NUM_STATES)%nat /\
    map code infos = first_sightings log /\
    Forall code_ok (first_sightings log) /\
    (Z.of_nat n <= ULONG_MAX ->
     Forall (fun info => 1 <= num_records info <= Z.of_nat n) infos).

(** The number of lines the second loop of [main] can read. *)
Fixpoint lines_of_run (fs : filesystem) (args : list cstring) : nat :=
  match args with
  | [] => 0
  | path :: rest =>
      match fs path with
      | None => lines_of_run fs rest
      | Some f => List.length (read_lines f) + lines_of_run fs rest
      end
  end.

(** The outcomes of the turns of the reading loop on [lines], up to the
    [return] that follows a failed allocation. *)
Fixpoint outcomes (lines : list (list ascii)) (h : heap) (states : table)
  : list outcome :=
  match lines with
  | [] => []
  | line :: rest =>
      match process_line h states line with
      | (NoMemory, _, _) => [NoMemory]
      | (out, h', states') => out :: outcomes rest h' states'
      end
  end.

(** The allocator and the table those turns leave. *)
Fixpoint run_lines (lines : list (list ascii)) (h : heap) (states : table)
  : heap * table :=
  match lines with
  | [] => (h, states)
  | line :: rest =>
      match process_line h states line with
      | (NoMemory, h', states') => (h', states')
      | (_, h', states') => run_lines rest h' states'
      end
  end.

(** An allocator that never fails. *)
Definition never_fails (h : heap) : Prop := Forall (fun b => b = true) h.

Definition final_table (r : heap * table * Z * list event) : table :=
  let '(_, states, _, _) := r in states.

(** What the second loop of [main] gets for each argument: [None] for a
    file that cannot be opened, otherwise the value [analyze_file]
    returns. *)
Fixpoint file_results (fs : filesystem) (args : list cstring) (h : heap)
  (states : table) : list (option Z) :=
  match args with
  | [] => []
  | path :: rest =>
      match fs path with
      | None => None :: file_results fs rest h states
      | Some f =>
          let '(rc, h1, states1, _) := analyze_file (Some f) h states in
          Some rc :: file_results fs rest h1 states1
      end
  end.

Definition processed_ok (r : option Z) : bool :=
  match r with
  | Some rc => rc =? 0
  | None => false
  end.

(** The number of files successfully processed. *)
Definition successes (rs : list (option Z)) : Z :=
  Z.of_nat (List.length (filter processed_ok rs)).

Definition is_stdout (e : event) : bool :=
  match e with
  | Stdout _ => true
  | _ => false
  end.

(** ** The line format in the words of the specification

    A record is one line of nine tab-separated fields.  [tab_fields]
    splits a line at its tab characters, [join_tab] builds a line from its
    fields, and [spec_parse_fields] reads nine fields, each of which must
    be parseable as a whole in its expected type. *)

(** A line without its terminating newline. *)
Definition chomp (line : list ascii) : list ascii :=
  match rev line with
  | c :: r => if Ascii.eqb c LF then rev r else line
  | [] => []
  end.

Fixpoint tab_fields (s : list ascii) : list (list ascii) :=
  match s with
  | [] => [[]]
  | c :: s' =>
      if Ascii.eqb c TAB then [] :: tab_fields s'
      else
        match tab_fields s' with
        | f :: fs => (c :: f) :: fs
        | [] => [[c]]
        end
  end.

Fixpoint join_tab (fields : list (list ascii)) : list ascii :=
  match fields with
  | [] => []
  | f :: rest =>
      match rest with
      | [] => f
      | _ :: _ => f ++ TAB :: join_tab rest
      end
  end.

Definition field_char (c : ascii) : bool :=
  negb (isspace c) && negb (Ascii.eqb c NUL).

(** A field: not empty, without white space or NUL. *)
Definition field_ok (f : list ascii) : bool :=
  match f with
  | [] => false
  | _ :: _ => forallb field_char f
  end.

(** The value of a scan that used up its whole input. *)
Definition whole {A : Type} (r : option (A * list ascii)) : option A :=
  match r with
  | Some (v, []) => Some v
  | _ => None
  end.

Definition spec_parse_fields (fields : list (list ascii)) : option observation :=
  match fields with
  | [f1; f2; f3; f4; f5; f6; f7; f8; f9] =>
      if forallb field_ok fields
         && (List.length f1 <=? 2)%nat && (List.length f3 <=? 12)%nat
      then
        'ts <- whole (scan_llu f2) ;;
        'h <- whole (scan_lf f4) ;;
        'sn <- whole (scan_lf f5) ;;
        'cl <- whole (scan_lf f6) ;;
        'li <- whole (scan_lf f7) ;;
        'pr <- whole (scan_lf f8) ;;
        'te <- whole (scan_lf f9) ;;
        Some {| state_code := f1; timestamp := ts; geohash := f3;
                humidity := h; snow := sn; cloudcover := cl; lightning := li;
                pressure := pr; temperature := te |}
      else None
  | _ => None
  end.

(** The type the format expects of a field. *)
Inductive field_type : Type := TCode | TStamp | TGeohash | TNumber.

(** The types of the nine fields of a record, in order. *)
Definition tdv_types : list field_type :=
  [TCode; TStamp; TGeohash; TNumber; TNumber; TNumber; TNumber; TNumber;
   TNumber].

Definition is_some {A : Type} (r : option A) : bool :=
  match r with
  | Some _ => true
  | None => false
  end.

(** A field that is parseable as a whole in the type [t]. *)
Definition parseable (t : field_type) (f : list ascii) : bool :=
  field_ok f &&
  match t with
  | TCode => (List.length f <=? 2)%nat
  | TStamp => is_some (whole (scan_llu f))
  | TGeohash => (List.length f <=? 12)%nat
  | TNumber => is_some (whole (scan_lf f))
  end.

(** A field of which nothing can be converted to the type [t]: no number
    starts it.  Any non-empty field can be read as a string. *)
Definition unparseable (t : field_type) (f : list ascii) : bool :=
  field_ok f &&
  match t with
  | TStamp => negb (is_some (scan_llu f))
  | TNumber => negb (is_some (scan_lf f))
  | TCode | TGeohash => false
  end.

(** Every field that faces a type is parseable in it. *)
Fixpoint fields_parse (ts : list field_type) (fields : list (list ascii))
  : bool :=
  match ts, fields with
  | t :: ts', f :: fields' => parseable t f && fields_parse ts' fields'
  | _, _ => true
  end.

(** One of the fields that face a type is unparseable in it, and the
    fields before that one are parseable. *)
Fixpoint field_fails (ts : list field_type) (fields : list (list ascii))
  : bool :=
  match ts, fields with
  | t :: ts', f :: fields' =>
      unparseable t f || (parseable t f && field_fails ts' fields')
  | _, _ => false
  end.

(** The conversions of a format, one after the other: [convert] is the
    conversion for a field of type [t], [conversions] the values
    converted for the types [ts], or [None] when one of them fails. *)
Inductive scanned : Type :=
| SStr (s : cstring)
| SInt (z : Z)
| SNum (x : Fp.fp).

Definition convert (t : field_type) (s : list ascii)
  : option (scanned * list ascii) :=
  match t with
  | TCode => '(c, r) <- conv_s 2 s ;; Some (SStr c, r)
  | TStamp => '(z, r) <- conv_llu s ;; Some (SInt z, r)
  | TGeohash => '(g, r) <- conv_s 12 s ;; Some (SStr g, r)
  | TNumber => '(x, r) <- conv_lf s ;; Some (SNum x, r)
  end.

Fixpoint conversions (ts : list field_type) (s : list ascii)
  : option (list scanned) :=
  match ts with
  | [] => Some []
  | t :: ts' =>
      '(v, r) <- convert t (skip_space s) ;;
      'vs <- conversions ts' r ;;
      Some (v :: vs)
  end.

(** What follows a field on a line: the tail of the line after the last
    field, a tab and the other fields otherwise. *)
Definition after_field (rest : list (list ascii)) (tail : list ascii)
  : list ascii :=
  match rest with
  | [] => tail
  | _ :: _ => TAB :: join_tab rest ++ tail
  end.

(** What may follow the last field: nothing, or white space and then
    anything. *)
Definition tail_ok (tail : list ascii) : Prop :=
  match tail with
  | [] => True
  | c :: _ => isspace c = true
  end.

(** A stream made of complete lines: empty, or ending with a newline. *)
Definition complete_lines (f : FILE) : Prop :=
  f = [] \/ exists f0, f = f0 ++ [LF].

(** ** Concrete inputs *)

(** The fields of the line of scenario A and the observation it holds; the
    temperature is the [double] nearest to 277.58716. *)
Definition fields_A : list (list ascii) :=
  map lit ["CA"; "1428300000000"; "9prcjqk3yc80"; "93.0"; "0.0"; "100.0";
           "0.0"; "95644.0"; "277.58716"]%string.

Definition obs_A : observation :=
  {| state_code := lit "CA";
     timestamp := 1428300000000;
     geohash := lit "9prcjqk3yc80";
     humidity := Fp.Fin 93;
     snow := Fp.Fin 0;
     cloudcover := Fp.Fin 100;
     lightning := Fp.Fin 0;
     pressure := Fp.Fin 95644;
     temperature := Fp.double (27758716 # 100000) |}.

(** A later observation of the same temperature. *)
Definition obs_A_later : observation :=
  {| state_code := lit "CA";
     timestamp := 1430308800000;
     geohash := lit "9prc9sgwvw80";
     humidity := Fp.Fin 4;
     snow := Fp.Fin 0;
     cloudcover := Fp.Fin 100;
     lightning := Fp.Fin 0;
     pressure := Fp.Fin 99226;
     temperature := Fp.double (27758716 # 100000) |}.

Definition line_TN : list ascii :=
  tdv ["TN"; "1420070400000"; "dn6hmfunzmxb"; "50.0"; "1.0"; "25.0"; "1.0";
       "101325.0"; "300.5"]%string.

Definition obs_TN : observation :=
  {| state_code := lit "TN";
     timestamp := 1420070400000;
     geohash := lit "dn6hmfunzmxb";
     humidity := Fp.Fin 50;
     snow := Fp.Fin 1;
     cloudcover := Fp.Fin 25;
     lightning := Fp.Fin 1;
     pressure := Fp.Fin 101325;
     temperature := Fp.Fin (601 # 2) |}.

(** The line of scenario A with a tenth field. *)
Definition line_ten_fields : list ascii :=
  tdv ["CA"; "1428300000000"; "9prcjqk3yc80"; "93.0"; "0.0"; "100.0"; "0.0";
       "95644.0"; "277.58716"; "extra"]%string.

(** The line of scenario A with a state code of three letters. *)
Definition line_CAL : list ascii :=
  tdv ["CAL"; "1428300000000"; "9prcjqk3yc80"; "93.0"; "0.0"; "100.0"; "0.0";
       "95644.0"; "277.58716"]%string.

(** Fifty state codes, AA to BX, and a table they fill. *)
Definition fifty_codes : list cstring :=
  map (fun n => [ascii_of_nat (65 + n / 26); ascii_of_nat (65 + n mod 26)])
      (seq 0 NUM_STATES).

Definition full_table : table :=
  map (fun c => Some (update_info (new_info c) obs_A)) fifty_codes.

(** Three files: the third holds the lines of the first two. *)
Definition file_a : FILE := scenario_A ++ line_TN.
Definition file_b : FILE := line_TN ++ scenario_A ++ scenario_A.

Definition three_files : filesystem :=
  fun path =>
    if list_eq_dec ascii_dec path (lit "a.tdv") then Some file_a
    else if list_eq_dec ascii_dec path (lit "b.tdv") then Some file_b
    else if list_eq_dec ascii_dec path (lit "c.tdv") then Some (file_a ++ file_b)
    else None.

(** Reduction of the fields of an accumulator under construction. *)
Ltac fields :=
  cbn [code num_records sum_temperature sum_humidity sum_cloudcover
       lightning_strikes snow_records max_temp_time min_temp_time
       max_temp min_temp update_info new_info] in *.

(** ** Lines with other separators *)

Definition all_space (s : list ascii) : Prop :=
  Forall (fun c => isspace c = true) s.

(** [seps] and [fields] in turn: a separator, a field, a separator, ... *)
Fixpoint interleave (seps fields : list (list ascii)) : list ascii :=
  match seps, fields with
  | s :: seps', f :: fields' => s ++ f ++ interleave seps' fields'
  | _, _ => []
  end.

(** A character with which no floating-point number can start. *)
Definition starts_number (c : ascii) : bool :=
  isdigit c || Ascii.eqb c "+" || Ascii.eqb c "-" || Ascii.eqb c "."
  || Ascii.eqb (tolower c) "i" || Ascii.eqb (tolower c) "n".

(** ** The history of a table *)

(** The result of the search loop started at index [k], from its result
    when started at index 0. *)
Definition shift_search (k : nat) (r : search) : search :=
  match r with
  | Found i info => Found (k + i) info
  | Vacant i => Vacant (k + i)
  | NoSlot => NoSlot
  end.

(** The observation a turn of the loop folds, if any. *)
Definition folded_observation (line : list ascii) (out : outcome)
  : list observation :=
  match out, parse_line line with
  | Folded, Some o => [o]
  | _, _ => []
  end.

(** [history obs h states]: the table [states] (with allocator [h])
    results from the empty table of [main] by turns of the reading loop
    that folded, in order, the observations [obs]. *)
Inductive history : list observation -> heap -> table -> Prop :=
| history_start (h : heap) : history [] h (repeat None NUM_STATES)
| history_line (obs : list observation) (h h' : heap) (states states' : table)
    (line : list ascii) (out : outcome) :
    history obs h states ->
    process_line h states line = (out, h', states') ->
    history (obs ++ folded_observation line out) h' states'.

(** The test of the search loop: the observation carries the code [c]. *)
Definition of_state (c : cstring) (o : observation) : bool :=
  strcmp c (state_code o) =? 0.

(** The sum of the record counts of a table. *)
Definition total_records (states : table) : Z :=
  fold_right Z.add 0 (map num_records (present states)).

(** ** Files opened and closed *)

Definition is_file_event (e : event) : bool :=
  match e with
  | Fopen _ _ => true
  | Fclose _ => true
  | _ => false
  end.

(** What happens to the file of an argument: a failed [fopen], or an
    [fopen] and an [fclose]. *)
Definition file_events (fs : filesystem) (path : cstring) : list event :=
  match fs path with
  | None => [Fopen path false]
  | Some _ => [Fopen path true; Fclose path]
  end.


(** * Properties *)

(** ** Floating-point comparisons *)

Lemma Qcompare_refl (q : Q) : Qcompare q q = Eq.
Proof. apply Qeq_alt. reflexivity. Qed.

Lemma fp_lt_irrefl (x : Fp.fp) : Fp.lt x x = false.
Proof. destruct x; unfold Fp.lt; trivial. now rewrite Qcompare_refl. Qed.



(** ** The update fold *)

Lemma wrap_ulong_small (z : Z) : 0 <= z <= ULONG_MAX -> wrap_ulong z = z.
Proof. unfold wrap_ulong, ULONG_MAX. intros H. apply Z.mod_small. lia. Qed.

Lemma wrap_ulong_range (z : Z) : ulong_range (wrap_ulong z).
Proof.
  unfold ulong_range, wrap_ulong, ULONG_MAX.
  pose proof (Z.mod_pos_bound z (2 ^ 64) ltac:(lia)). lia.
Qed.

(** C1.  Folding an observation into an accumulator is a total function
    of the two, and it does exactly this: [num_records] is incremented by
    one (in [unsigned long] arithmetic, which is the increment of Z for
    every count below [ULONG_MAX]); the temperature, the humidity and the
    cloud cover are added to their sums; [lightning_strikes] (resp.
    [snow_records]) is incremented if and only if [lightning > 0] (resp.
    [snow > 0]); the maximum (resp. minimum) and its time are replaced if
    and only if the temperature is strictly greater (resp. less) than the
    stored one, the new time being the timestamp divided by 1000, rounded
    down.  Nothing can make the fold fail: the turn of the loop that found
    the accumulator always ends with the updated accumulator in its slot. *)
Theorem update_info_fold (info : climate_info) (o : observation) :
  valid_info info ->
  let info' := update_info info o in
  valid_info info' /\
  code info' = code info /\
  num_records info' = wrap_ulong (num_records info + 1) /\
  (forall z, 0 <= z < ULONG_MAX -> wrap_ulong (z + 1) = z + 1) /\
  sum_temperature info' = Fp.add (sum_temperature info) (temperature o) /\
  sum_humidity info' = Fp.add (sum_humidity info) (humidity o) /\
  sum_cloudcover info' = Fp.add (sum_cloudcover info) (cloudcover o) /\
  lightning_strikes info' =
    (if Fp.lt (Fp.of_Z 0) (lightning o)
     then wrap_ulong (lightning_strikes info + 1) else lightning_strikes info) /\
  snow_records info' =
    (if Fp.lt (Fp.of_Z 0) (snow o)
     then wrap_ulong (snow_records info + 1) else snow_records info) /\
  (max_temp info', max_temp_time info') =
    (if Fp.lt (max_temp info) (temperature o)
     then (temperature o, timestamp o / 1000)
     else (max_temp info, max_temp_time info)) /\
  (min_temp info', min_temp_time info') =
    (if Fp.lt (temperature o) (min_temp info)
     then (temperature o, timestamp o / 1000)
     else (min_temp info, min_temp_time info)) /\
  1000 * (timestamp o / 1000) <= timestamp o < 1000 * (timestamp o / 1000) + 1000 /\
  (forall (h : heap) (states : table) (line : list ascii) (i : nat),
      parse_line line = Some o ->
      find_state states (state_code o) 0 = Found i info ->
      process_line h states line = (Folded, h, store states i (Some info'))).
Proof.
  intros (Hn & Hl & Hs) info'. subst info'.
  assert (Hturn : forall (h : heap) (states : table) (line : list ascii) (i : nat),
             parse_line line = Some o ->
             find_state states (state_code o) 0 = Found i info ->
             process_line h states line
             = (Folded, h, store states i (Some (update_info info o)))).
  { intros h states line i Hp Hf. unfold process_line. now rewrite Hp, Hf. }
  fields.
  repeat split; try apply wrap_ulong_range; try exact Hturn.
  - intros z Hz. apply wrap_ulong_small. lia.
  - destruct (Fp.lt (Fp.of_Z 0) (lightning o)); trivial.
    rewrite Z.add_0_r. now apply wrap_ulong_small.
  - destruct (Fp.lt (Fp.of_Z 0) (snow o)); trivial.
    rewrite Z.add_0_r. now apply wrap_ulong_small.
  - destruct (Fp.lt (max_temp info) (temperature o)); reflexivity.
  - destruct (Fp.lt (temperature o) (min_temp info)); reflexivity.
  - pose proof (Z.mul_div_le (timestamp o) 1000 ltac:(lia)). lia.
  - pose proof (Z.mul_succ_div_gt (timestamp o) 1000 ltac:(lia)). lia.
Qed.

(** ** Extrema and ties *)





Lemma fold_observations_app (info : climate_info) (a b : list observation) :
  fold_observations info (a ++ b)
  = fold_observations (fold_observations info a) b.
Proof. apply fold_left_app. Qed.

Lemma fold_observations_cons
  (info : climate_info) (o : observation) (os : list observation) :
  fold_observations info (o :: os)
  = fold_observations (update_info info o) os.
Proof. reflexivity. Qed.


(** ** Strings *)

Lemma code_of_inj (c d : ascii) : code_of c = code_of d -> c = d.
Proof.
  unfold code_of. intros H. apply N2Z.inj in H.
  rewrite <- (ascii_N_embedding c), <- (ascii_N_embedding d). now rewrite H.
Qed.

Lemma code_of_NUL (c : ascii) : code_of c = 0 -> c = NUL.
Proof. intros H. apply code_of_inj. exact H. Qed.

Lemma strcmp_refl (a : cstring) : strcmp a a = 0.
Proof. induction a as [|c a IH]; simpl; trivial. now rewrite Ascii.eqb_refl. Qed.

Lemma strcmp_eq (a b : cstring) :
  ~ In NUL a -> ~ In NUL b -> strcmp a b = 0 -> a = b.
Proof.
  revert b. induction a as [|c a IH]; intros [|d b] Ha Hb H; simpl in *; trivial.
  - exfalso. apply Hb. left. apply code_of_NUL. lia.
  - exfalso. apply Ha. left. now apply code_of_NUL.
  - destruct (Ascii.eqb_spec c d) as [->|Hne].
    + f_equal. apply IH; tauto.
    + exfalso. apply Hne. apply code_of_inj. lia.
Qed.

Lemma c_str_no_NUL (buf : list ascii) : ~ In NUL (c_str buf).
Proof.
  induction buf as [|c buf IH]; simpl; [tauto|].
  destruct (Ascii.eqb_spec c NUL) as [->|Hne]; simpl; [tauto|].
  intros [H|H]; [now apply Hne | now apply IH].
Qed.

Lemma skip_space_incl (s : list ascii) (x : ascii) :
  In x (skip_space s) -> In x s.
Proof.
  induction s as [|c s IH]; simpl; trivial.
  destruct (isspace c); simpl; tauto.
Qed.

Lemma span_fst_incl (p : ascii -> bool) (s : list ascii) (x : ascii) :
  In x (fst (span p s)) -> In x s.
Proof.
  induction s as [|c s IH]; simpl; trivial.
  destruct (p c); simpl; [|tauto].
  destruct (span p s) as [a b]. simpl in *. tauto.
Qed.

Lemma span_fst_forall (p : ascii -> bool) (s : list ascii) :
  Forall (fun c => p c = true) (fst (span p s)).
Proof.
  induction s as [|c s IH]; simpl; [constructor|].
  destruct (p c) eqn:E; simpl; [|constructor].
  destruct (span p s) as [a b]. simpl in *. now constructor.
Qed.

Lemma firstn_incl (n : nat) (l : list ascii) (x : ascii) :
  In x (firstn n l) -> In x l.
Proof.
  intros H. rewrite <- (firstn_skipn n l). apply in_or_app. now left.
Qed.

Lemma conv_s_token (w : nat) (s : list ascii) (c : cstring) (r : list ascii) :
  conv_s w s = Some (c, r) ->
  (List.length c <= w)%nat /\ (forall x, In x c -> In x s) /\
  ((1 <= w)%nat -> (1 <= List.length c)%nat) /\
  Forall (fun x => isspace x = false) c.
Proof.
  unfold conv_s, next_token.
  pose proof (span_fst_incl (fun c => negb (isspace c)) (skip_space s)) as Hin.
  pose proof (span_fst_forall (fun c => negb (isspace c)) (skip_space s)) as Hall.
  destruct (span _ (skip_space s)) as [tok rest]. simpl in *.
  destruct tok as [|t tok]; [discriminate|].
  intros H. injection H as <- <-. repeat split.
  - rewrite length_firstn. lia.
  - intros x Hx. apply skip_space_incl, Hin. eapply firstn_incl; eauto.
  - intros Hw. destruct w; [lia|]. simpl. lia.
  - apply Forall_forall. intros x Hx. apply firstn_incl in Hx.
    rewrite Forall_forall in Hall. specialize (Hall x Hx).
    now apply negb_true_iff in Hall.
Qed.

(** ** The parser *)

Lemma sscanf_tdv_inv (line : cstring) (o : observation) :
  sscanf_tdv line = Some o ->
  exists s1 s2 s3 s4 s5 s6 s7 s8 s9,
    conv_s 2 line = Some (state_code o, s1) /\
    conv_llu (skip_space s1) = Some (timestamp o, s2) /\
    conv_s 12 (skip_space s2) = Some (geohash o, s3) /\
    conv_lf (skip_space s3) = Some (humidity o, s4) /\
    conv_lf (skip_space s4) = Some (snow o, s5) /\
    conv_lf (skip_space s5) = Some (cloudcover o, s6) /\
    conv_lf (skip_space s6) = Some (lightning o, s7) /\
    conv_lf (skip_space s7) = Some (pressure o, s8) /\
    conv_lf (skip_space s8) = Some (temperature o, s9).
Proof.
  unfold sscanf_tdv. intros H.
  destruct (conv_s 2 line) as [[c s1]|] eqn:E1; [|discriminate].
  destruct (conv_llu (skip_space s1)) as [[ts s2]|] eqn:E2; [|discriminate].
  destruct (conv_s 12 (skip_space s2)) as [[g s3]|] eqn:E3; [|discriminate].
  destruct (conv_lf (skip_space s3)) as [[hu s4]|] eqn:E4; [|discriminate].
  destruct (conv_lf (skip_space s4)) as [[sn s5]|] eqn:E5; [|discriminate].
  destruct (conv_lf (skip_space s5)) as [[cl s6]|] eqn:E6; [|discriminate].
  destruct (conv_lf (skip_space s6)) as [[li s7]|] eqn:E7; [|discriminate].
  destruct (conv_lf (skip_space s7)) as [[pr s8]|] eqn:E8; [|discriminate].
  destruct (conv_lf (skip_space s8)) as [[te s9]|] eqn:E9; [|discriminate].
  injection H as <-. simpl. exists s1, s2, s3, s4, s5, s6, s7, s8, s9.
  rewrite E2, E3, E4, E5, E6, E7, E8, E9.
  repeat split; reflexivity.
Qed.

Lemma parse_line_inv (line : list ascii) (o : observation) :
  parse_line line = Some o ->
  strlen line < LINE_BUFFER - 1 /\
  sscanf_tdv (c_str line) = Some o /\
  out_of_range o = false.
Proof.
  unfold parse_line. destruct (Z.leb_spec (LINE_BUFFER - 1) (strlen line)) as [|Hl];
    [discriminate|].
  destruct (sscanf_tdv (c_str line)) as [o'|]; [|discriminate].
  destruct (out_of_range o') eqn:Hr; [discriminate|].
  intros H. injection H as <-. auto.
Qed.

Lemma parse_line_code_ok (line : list ascii) (o : observation) :
  parse_line line = Some o -> code_ok (state_code o).
Proof.
  intros H. apply parse_line_inv in H. destruct H as (_ & H & _).
  apply sscanf_tdv_inv in H. destruct H as (s1 & _ & _ & _ & _ & _ & _ & _ & _ & H & _).
  apply conv_s_token in H. destruct H as (Hle & Hin & Hge & _).
  split; [split; [apply Hge; lia | exact Hle]|].
  intros Hn. apply Hin in Hn. now apply c_str_no_NUL in Hn.
Qed.

Lemma strncpy_code_ok (c : cstring) : code_ok c -> strncpy c 2 = c.
Proof. intros [[_ H] _]. unfold strncpy. now apply firstn_all2. Qed.

(** ** The search loop *)

Lemma find_state_found (infos : list climate_info) (rest : table)
  (c : cstring) (i j : nat) (info : climate_info) :
  find_state (map Some infos ++ rest) c i = Found j info ->
  (exists pre post,
      infos = pre ++ info :: post /\ j = (i + List.length pre)%nat /\
      strcmp (code info) c = 0 /\
      Forall (fun x => strcmp (code x) c <> 0) pre) \/
  (Forall (fun x => strcmp (code x) c <> 0) infos /\
   find_state rest c (i + List.length infos) = Found j info).
Proof.
  revert i. induction infos as [|x infos IH]; intros i H; simpl in *.
  - right. split; [constructor|]. now rewrite Nat.add_0_r.
  - destruct (Z.eqb_spec (strcmp (code x) c) 0) as [E|E].
    + injection H as <- <-. left. exists [], infos. simpl.
      rewrite Nat.add_0_r. repeat split; trivial.
    + apply IH in H. destruct H as [(pre & post & -> & -> & Hz & Hpre)|[Hall Hr]].
      * left. exists (x :: pre), post. simpl. repeat split; trivial.
        now constructor.
      * right. split; [now constructor|].
        now replace (i + S (List.length infos))%nat
          with (S i + List.length infos)%nat by lia.
Qed.

Lemma find_state_miss (infos : list climate_info) (rest : table)
  (c : cstring) (i : nat) :
  Forall (fun x => strcmp (code x) c <> 0) infos ->
  find_state (map Some infos ++ rest) c i
  = find_state rest c (i + List.length infos).
Proof.
  revert i. induction infos as [|x infos IH]; intros i H; simpl.
  - now rewrite Nat.add_0_r.
  - inversion H as [|? ? Hx Hxs]; subst.
    destruct (Z.eqb_spec (strcmp (code x) c) 0) as [E|E]; [contradiction|].
    rewrite IH; trivial. f_equal. lia.
Qed.

Lemma find_state_not_found (infos : list climate_info) (rest : table)
  (c : cstring) (i : nat) (r : search) :
  find_state (map Some infos ++ rest) c i = r ->
  (forall j info, r <> Found j info) ->
  Forall (fun x => strcmp (code x) c <> 0) infos.
Proof.
  revert i. induction infos as [|x infos IH]; intros i H Hr; simpl in *.
  - constructor.
  - destruct (Z.eqb_spec (strcmp (code x) c) 0) as [E|E].
    + exfalso. eapply Hr. symmetry. exact H.
    + constructor; trivial. eapply IH; eauto.
Qed.

Lemma store_middle (pre : list climate_info) (x : option climate_info)
  (rest : table) (p : option climate_info) :
  store (map Some pre ++ x :: rest) (List.length pre) p
  = map Some pre ++ p :: rest.
Proof. induction pre as [|y pre IH]; simpl; trivial. now rewrite IH. Qed.

Lemma present_prefix (infos : list climate_info) (k : nat) :
  present (map Some infos ++ repeat None k) = infos.
Proof.
  unfold present. rewrite flat_map_app.
  assert (H1 : forall l : list climate_info,
             flat_map (fun s => match s with Some info => [info] | None => [] end)
               (map Some l) = l).
  { induction l as [|y l IH]; simpl; trivial. now rewrite IH. }
  assert (H2 : forall n,
             flat_map (fun s : option climate_info =>
                         match s with Some info => [info] | None => [] end)
               (repeat None n) = []).
  { induction n; simpl; trivial. }
  now rewrite H1, H2, app_nil_r.
Qed.

(** What one turn of the loop does to a table whose accumulators fill a
    prefix of the slots. *)
Lemma process_line_cases (h h' : heap) (infos : list climate_info) (k : nat)
  (line : list ascii) (out : outcome) (states' : table) :
  process_line h (map Some infos ++ repeat None k) line = (out, h', states') ->
  (out = Skipped /\ h' = h /\ states' = map Some infos ++ repeat None k /\
   (parse_line line = None \/
    exists o, parse_line line = Some o /\ k = 0%nat /\
              Forall (fun x => strcmp (code x) (state_code o) <> 0) infos)) \/
  (exists o pre info post,
      parse_line line = Some o /\ infos = pre ++ info :: post /\
      strcmp (code info) (state_code o) = 0 /\
      out = Folded /\ h' = h /\
      states' = map Some (pre ++ update_info info o :: post) ++ repeat None k) \/
  (exists o k',
      parse_line line = Some o /\ k = S k' /\
      Forall (fun x => strcmp (code x) (state_code o) <> 0) infos /\
      calloc h = (true, h') /\ out = Folded /\
      states' = map Some (infos ++ [update_info (new_info (state_code o)) o])
                ++ repeat None k') \/
  (exists o k',
      parse_line line = Some o /\ k = S k' /\
      Forall (fun x => strcmp (code x) (state_code o) <> 0) infos /\
      calloc h = (false, h') /\ out = NoMemory /\
      states' = map Some infos ++ repeat None k).
Proof.
  unfold process_line. destruct (parse_line line) as [o|] eqn:Hp.
  2:{ intros H. injection H as <- <- <-. left. auto. }
  destruct (find_state (map Some infos ++ repeat None k) (state_code o) 0)
    as [j info|j|] eqn:Hf.
  - intros H. injection H as <- <- <-. right. left.
    apply find_state_found in Hf.
    destruct Hf as [(pre & post & -> & -> & Hz & _)|[_ Hr]].
    + exists o, pre, info, post. repeat split; trivial. simpl.
      rewrite map_app. simpl. rewrite <- app_assoc. simpl.
      rewrite store_middle. rewrite map_app, <- app_assoc. reflexivity.
    + destruct k; simpl in Hr; discriminate.
  - pose proof (find_state_not_found _ _ _ _ _ Hf ltac:(discriminate)) as Hall.
    rewrite find_state_miss in Hf by exact Hall.
    destruct k as [|k']; simpl in Hf; [discriminate|]. injection Hf as <-.
    simpl. destruct (calloc h) as [[|] h1] eqn:Hc; intros H;
      injection H as <- <- <-; right; right; [left|right];
      exists o, k'; repeat split; trivial.
    simpl. rewrite store_middle. rewrite map_app, <- app_assoc. reflexivity.
  - pose proof (find_state_not_found _ _ _ _ _ Hf ltac:(discriminate)) as Hall.
    rewrite find_state_miss in Hf by exact Hall.
    destruct k as [|k']; simpl in Hf; [|discriminate].
    intros H. injection H as <- <- <-. left. repeat split; trivial.
    right. exists o. auto.
Qed.

(** ** First sightings *)

Lemma first_sightings_snoc (log : list cstring) (c : cstring) :
  first_sightings (log ++ [c])
  = if in_dec (list_eq_dec ascii_dec) c (first_sightings log)
    then first_sightings log else first_sightings log ++ [c].
Proof. unfold first_sightings. now rewrite fold_left_app. Qed.

Lemma first_sightings_NoDup (log : list cstring) : NoDup (first_sightings log).
Proof.
  induction log as [|c log IH] using rev_ind; [constructor|].
  rewrite first_sightings_snoc.
  destruct (in_dec (list_eq_dec ascii_dec) c (first_sightings log)) as [Hin|Hnin]; trivial.
  apply NoDup_app; trivial.
  - constructor; [tauto | constructor].
  - intros x Hx [<-|[]]. contradiction.
Qed.

Lemma first_sightings_In (log : list cstring) (c : cstring) :
  In c (first_sightings log) <-> In c log.
Proof.
  induction log as [|d log IH] using rev_ind; [reflexivity|].
  rewrite first_sightings_snoc, in_app_iff. simpl.
  destruct (in_dec (list_eq_dec ascii_dec) d (first_sightings log)) as [Hin|Hnin].
  - split; [tauto|]. intros [H|[<-|[]]]; tauto.
  - rewrite in_app_iff. simpl. tauto.
Qed.

(** ** The table invariant *)

Lemma table_inv_start : table_inv 0 [] (repeat None NUM_STATES).
Proof.
  exists [], NUM_STATES. simpl. repeat split; trivial; constructor.
Qed.

Lemma table_inv_weaken (n : nat) (log : list cstring) (states : table) :
  table_inv n log states -> table_inv (S n) log states.
Proof.
  intros (infos & k & E & Hlen & Hc & Hok & Hn).
  exists infos, k. repeat split; trivial.
  intros Hb. eapply Forall_impl; [|apply Hn; lia].
  simpl. intros a Ha. lia.
Qed.

Lemma table_inv_step (n : nat) (log : list cstring) (h h' : heap)
  (states states' : table) (line : list ascii) (out : outcome) :
  table_inv n log states ->
  process_line h states line = (out, h', states') ->
  table_inv (S n) (log ++ folded_code line out) states'.
Proof.
  intros Hinv Hp. pose proof Hinv as (infos & k & E & Hlen & Hc & Hok & Hn).
  subst states. apply process_line_cases in Hp.
  destruct Hp as [(-> & -> & -> & _)
                 |[(o & pre & info & post & Hparse & -> & Hz & -> & -> & ->)
                 |[(o & k' & Hparse & -> & Hall & Hcal & -> & ->)
                 |(o & k' & Hparse & -> & Hall & Hcal & -> & ->)]]].
  - unfold folded_code. rewrite app_nil_r. now apply table_inv_weaken.
  - unfold folded_code. rewrite Hparse.
    assert (Hcode : code info = state_code o).
    { apply strcmp_eq; trivial.
      - rewrite Forall_forall in Hok. apply (Hok (code info)).
        rewrite <- Hc, map_app. apply in_or_app. right. now left.
      - now apply parse_line_code_ok in Hparse as [_ ?]. }
    assert (Hfs : first_sightings (log ++ [state_code o]) = first_sightings log).
    { rewrite first_sightings_snoc.
      destruct (in_dec (list_eq_dec ascii_dec) (state_code o) (first_sightings log)) as [|Hnin]; trivial.
      exfalso. apply Hnin. rewrite <- Hc, <- Hcode, map_app.
      apply in_or_app. right. now left. }
    exists (pre ++ update_info info o :: post), k. rewrite Hfs.
    repeat split; trivial.
    + rewrite length_app in *. simpl in *. lia.
    + rewrite <- Hc, !map_app. reflexivity.
    + intros Hb. specialize (Hn ltac:(lia)).
      apply Forall_app in Hn. destruct Hn as [Hpre Hpost].
      inversion Hpost as [|? ? Hi Hpost']; subst.
      apply Forall_app. split.
      * eapply Forall_impl; [|exact Hpre]. simpl. intros a Ha. lia.
      * constructor.
        -- fields. rewrite wrap_ulong_small; lia.
        -- eapply Forall_impl; [|exact Hpost']. simpl. intros a Ha. lia.
  - unfold folded_code. rewrite Hparse.
    pose proof (parse_line_code_ok _ _ Hparse) as Hcok.
    assert (Hfs : first_sightings (log ++ [state_code o])
                  = first_sightings log ++ [state_code o]).
    { rewrite first_sightings_snoc.
      destruct (in_dec (list_eq_dec ascii_dec) (state_code o) (first_sightings log)) as [Hin|]; trivial.
      exfalso. rewrite <- Hc in Hin. apply in_map_iff in Hin.
      destruct Hin as (x & Hx & Hin). rewrite Forall_forall in Hall.
      apply (Hall x Hin). rewrite Hx. apply strcmp_refl. }
    exists (infos ++ [update_info (new_info (state_code o)) o]), k'.
    rewrite Hfs. repeat split; trivial.
    + rewrite length_app. simpl. lia.
    + rewrite map_app, Hc. cbn [map]. fields. now rewrite strncpy_code_ok.
    + apply Forall_app. split; trivial. now constructor.
    + intros Hb. specialize (Hn ltac:(lia)). apply Forall_app. split.
      * eapply Forall_impl; [|exact Hn]. simpl. intros a Ha. lia.
      * constructor; [|constructor]. fields. rewrite wrap_ulong_small.
        -- lia.
        -- unfold ULONG_MAX. lia.
  - unfold folded_code. rewrite app_nil_r. now apply table_inv_weaken.
Qed.

Lemma reachable_inv (n : nat) (log : list cstring) (h : heap) (states : table) :
  reachable n log h states -> table_inv n log states.
Proof.
  induction 1 as [h|n log h h' states states' line out _ IH Hp].
  - apply table_inv_start.
  - eapply table_inv_step; eauto.
Qed.

Lemma in_prefix_table (infos : list climate_info) (k : nat) (info : climate_info) :
  In (Some info) (map Some infos ++ repeat None k) -> In info infos.
Proof.
  intros H. apply in_app_or in H. destruct H as [H|H].
  - apply in_map_iff in H. destruct H as (x & Hx & Hin). now injection Hx as <-.
  - apply repeat_spec in H. discriminate.
Qed.

(** C5.  In every table the program can reach, as long as no more than
    [ULONG_MAX] lines have been read since the start, every accumulator
    that exists has [num_records >= 1]: the divisor of each division of
    [print_report] is not zero. *)
Theorem created_accumulator_has_records
  (n : nat) (log : list cstring) (h : heap) (states : table)
  (info : climate_info) :
  reachable n log h states ->
  Z.of_nat n <= ULONG_MAX ->
  In (Some info) states ->
  1 <= num_records info /\
  Fp.eqb (Fp.of_Z (num_records info)) (Fp.of_Z 0) = false.
Proof.
  intros Hr Hb Hin. apply reachable_inv in Hr.
  destruct Hr as (infos & k & -> & _ & _ & _ & Hn).
  apply in_prefix_table in Hin. specialize (Hn Hb).
  rewrite Forall_forall in Hn. specialize (Hn info Hin).
  split; [lia|].
  unfold Fp.eqb, Fp.of_Z.
  destruct (Qcompare (inject_Z (num_records info)) (inject_Z 0)) eqn:E; trivial.
  apply Qeq_alt in E. unfold Qeq in E. simpl in E. lia.
Qed.

(** ** Runs of the program stay among the reachable tables *)

Arguments analyze_file : simpl never.
Arguments process_line : simpl never.

Lemma analyze_lines_reachable (lines : list (list ascii)) :
  forall (n : nat) (log : list cstring) (h : heap) (states : table) (lp : Z)
         (rc : Z) (h' : heap) (states' : table) (ev : list event),
    reachable n log h states ->
    analyze_lines lines h states lp = (rc, h', states', ev) ->
    exists n' log',
      reachable n' log' h' states' /\ (n <= n' <= n + List.length lines)%nat.
Proof.
  induction lines as [|line lines IH]; intros n log h states lp rc h' states' ev Hr Ha.
  - simpl in Ha. injection Ha as <- <- <- <-. exists n, log. split; trivial. lia.
  - simpl in Ha. destruct (process_line h states line) as [[out h1] states1] eqn:Hp.
    pose proof (reach_line _ _ _ _ _ _ _ _ Hr Hp) as Hr1.
    destruct out.
    + apply (IH _ _ _ _ _ _ _ _ _ Hr1) in Ha. destruct Ha as (n' & log' & Hr' & Hb).
      exists n', log'. split; trivial. simpl. lia.
    + apply (IH _ _ _ _ _ _ _ _ _ Hr1) in Ha. destruct Ha as (n' & log' & Hr' & Hb).
      exists n', log'. split; trivial. simpl. lia.
    + injection Ha as <- <- <- <-. eexists _, _. split; [exact Hr1|]. simpl. lia.
Qed.

Lemma analyze_file_reachable (f : FILE) (n : nat) (log : list cstring)
  (h : heap) (states : table) (rc : Z) (h' : heap) (states' : table)
  (ev : list event) :
  reachable n log h states ->
  analyze_file (Some f) h states = (rc, h', states', ev) ->
  exists n' log',
    reachable n' log' h' states' /\
    (n <= n' <= n + List.length (read_lines f))%nat.
Proof.
  intros Hr Ha. unfold analyze_file in Ha. destruct states as [|s states].
  - injection Ha as <- <- <- <-. exists n, log. split; trivial. lia.
  - eapply analyze_lines_reachable; eauto.
Qed.

Lemma process_files_reachable (fs : filesystem) (args : list cstring) :
  forall (n : nat) (log : list cstring) (h : heap) (states : table) (fp : Z)
         (h' : heap) (states' : table) (fp' : Z) (ev : list event),
    reachable n log h states ->
    process_files fs args h states fp = (h', states', fp', ev) ->
    exists n' log',
      reachable n' log' h' states' /\ (n' <= n + lines_of_run fs args)%nat.
Proof.
  induction args as [|path args IH]; intros n log h states fp h' states' fp' ev Hr Hp.
  - simpl in Hp. injection Hp as <- <- <- <-. exists n, log. split; trivial. lia.
  - simpl in Hp. simpl lines_of_run. destruct (fs path) as [f|].
    + destruct (analyze_file (Some f) h states) as [[[rc h1] states1] ev1] eqn:Ha.
      destruct (analyze_file_reachable _ _ _ _ _ _ _ _ _ Hr Ha)
        as (n1 & log1 & Hr1 & Hb1).
      destruct (process_files fs args h1 states1 _) as [[[h2 states2] fp2] ev2] eqn:Hq.
      injection Hp as <- <- <- <-.
      destruct (IH _ _ _ _ _ _ _ _ _ Hr1 Hq) as (n2 & log2 & Hr2 & Hb2).
      exists n2, log2. split; trivial. lia.
    + destruct (process_files fs args h states fp) as [[[h2 states2] fp2] ev2] eqn:Hq.
      injection Hp as <- <- <- <-.
      destruct (IH _ _ _ _ _ _ _ _ _ Hr Hq) as (n2 & log2 & Hr2 & Hb2).
      exists n2, log2. split; trivial.
Qed.

(** The table [main] hands to [print_report] is a reachable one. *)
Lemma main_report_reachable (fs : filesystem) (h : heap) (argv : list cstring)
  (trace : list event) :
  main fs h argv = (EXIT_SUCCESS, trace) ->
  exists n log h' states ev,
    reachable n log h' states /\
    (n <= lines_of_run fs (tl argv))%nat /\
    trace = map opening_notice (tl argv) ++ ev ++ print_report states.
Proof.
  unfold main. destruct (Z.of_nat (List.length argv) <? 2); [discriminate|].
  destruct (process_files fs (tl argv) h (repeat None NUM_STATES) 0)
    as [[[h' states] fp] ev] eqn:Hp.
  destruct (fp =? 0); [discriminate|]. intros H. injection H as <-.
  destruct (process_files_reachable _ _ _ _ _ _ _ _ _ _ _ (reach_start h) Hp)
    as (n & log & Hr & Hb).
  exists n, log, h', states, ev. auto.
Qed.

(** ** The report *)

Lemma report_entries (infos : list climate_info) (k : nat) :
  flat_map header_entry (map Some infos ++ repeat None k)
  = map (fun info => Stdout [Str (code info); Txt " "]) infos /\
  flat_map block_entry (map Some infos ++ repeat None k)
  = flat_map state_block infos.
Proof.
  rewrite !flat_map_app.
  assert (H0 : forall (g : option climate_info -> list event),
             g None = [] -> flat_map g (repeat None k) = []).
  { intros g Hg. induction k; simpl; trivial. now rewrite Hg, IHk. }
  rewrite !H0, !app_nil_r by reflexivity.
  split; induction infos as [|x infos IH]; simpl; trivial; now rewrite IH.
Qed.

(** C9.  For every table the program can reach, [log] being the codes of
    the lines folded so far: the report opens with the line "States
    found: " listing the codes of [first_sightings log], each followed by
    a space, and goes on with one block per accumulator whose codes are,
    in order, the same list.  That list has no duplicate and holds
    exactly the codes that were folded.  Each block starts with the line
    naming its code. *)
Theorem report_lists_first_sightings
  (n : nat) (log : list cstring) (h : heap) (states : table) :
  reachable n log h states ->
  print_report states
  = Stdout [Txt "States found: "]
    :: map (fun c => Stdout [Str c; Txt " "]) (first_sightings log)
    ++ Stdout [Txt nl] :: flat_map state_block (present states) /\
  map code (present states) = first_sightings log /\
  NoDup (first_sightings log) /\
  (forall c, In c (first_sightings log) <-> In c log) /\
  (forall info, In info (present states) ->
     exists rest,
       state_block info
       = Stdout [Txt "-- State: "; Str (code info); Txt (" --" ++ nl)] :: rest).
Proof.
  intros Hr. apply reachable_inv in Hr.
  destruct Hr as (infos & k & -> & _ & Hc & _ & _).
  rewrite present_prefix. unfold print_report.
  destruct (report_entries infos k) as [-> ->].
  repeat split.
  - rewrite <- Hc, map_map. reflexivity.
  - exact Hc.
  - apply first_sightings_NoDup.
  - apply first_sightings_In.
  - apply first_sightings_In.
  - intros info _. eexists. reflexivity.
Qed.

(** ** A full table *)

Lemma find_state_full (states : table) (c : cstring) (i : nat) :
  Forall (fun s => s <> None) states ->
  (forall info, In (Some info) states -> strcmp (code info) c <> 0) ->
  find_state states c i = NoSlot.
Proof.
  revert i. induction states as [|s states IH]; intros i Hfull Hnew; simpl; trivial.
  inversion Hfull as [|? ? Hs Hrest]; subst.
  destruct s as [info|]; [|contradiction].
  destruct (Z.eqb_spec (strcmp (code info) c) 0) as [E|E].
  - exfalso. apply (Hnew info); [now left | exact E].
  - apply IH; trivial. intros x Hx. apply Hnew. now right.
Qed.

(** C6.  When every slot of the table is taken and no accumulator
    carries the code of a valid observation, the turn of the loop that
    parsed it leaves the table and the allocator as they were and counts
    nothing: the loop goes on as if the line had not been there, and
    nothing is written. *)
Theorem full_table_discards_new_code
  (h : heap) (states : table) (line : list ascii) (o : observation) :
  parse_line line = Some o ->
  Forall (fun s => s <> None) states ->
  (forall info, In (Some info) states ->
                strcmp (code info) (state_code o) <> 0) ->
  process_line h states line = (Skipped, h, states) /\
  (forall rest lp,
      analyze_lines (line :: rest) h states lp = analyze_lines rest h states lp).
Proof.
  intros Hp Hfull Hnew.
  assert (E : process_line h states line = (Skipped, h, states)).
  { unfold process_line. rewrite Hp. now rewrite find_state_full. }
  split; trivial. intros rest lp. simpl. now rewrite E.
Qed.

(** ** The result of [analyze_file] *)

Lemma wrap_int_small (z : Z) : - 2 ^ 31 <= z <= INT_MAX -> wrap_int z = z.
Proof.
  unfold wrap_int, INT_MAX. intros H. rewrite Z.mod_small; lia.
Qed.

Lemma analyze_lines_state (lines : list (list ascii)) :
  forall (h : heap) (states : table) (lp : Z),
    let '(_, h', states', _) := analyze_lines lines h states lp in
    (h', states') = run_lines lines h states.
Proof.
  induction lines as [|line lines IH]; intros h states lp; simpl; trivial.
  destruct (process_line h states line) as [[[| |] h1] states1]; trivial; apply IH.
Qed.

Lemma analyze_lines_rc (lines : list (list ascii)) :
  forall (h : heap) (states : table) (lp : Z),
    0 <= lp -> lp + Z.of_nat (List.length lines) <= INT_MAX ->
    let '(rc, _, _, ev) := analyze_lines lines h states lp in
    let outs := outcomes lines h states in
    (rc = 0 \/ rc = -1) /\
    (rc = 0 <-> (0 < lp \/ In Folded outs) /\ ~ In NoMemory outs) /\
    (ev = [] <-> ~ In NoMemory outs).
Proof.
  induction lines as [|line lines IH]; intros h states lp H0 Hb.
  - simpl. destruct (Z.ltb_spec 0 lp); intuition lia.
  - simpl. destruct (process_line h states line) as [[[| |] h1] states1].
    + specialize (IH h1 states1 lp H0 ltac:(simpl List.length in Hb; lia)).
      destruct (analyze_lines lines h1 states1 lp) as [[[rc h'] states'] ev].
      simpl in *. intuition (try discriminate).
    + assert (Hw : wrap_int (lp + 1) = lp + 1).
      { apply wrap_int_small. simpl List.length in Hb. unfold INT_MAX in *. lia. }
      rewrite Hw.
      specialize (IH h1 states1 (lp + 1) ltac:(lia)
                     ltac:(simpl List.length in Hb; lia)).
      assert (Hpos : 0 < lp + 1) by lia.
      destruct (analyze_lines lines h1 states1 (lp + 1)) as [[[rc h'] states'] ev].
      simpl in *. intuition (try discriminate).
    + simpl. intuition (try discriminate; try lia).
Qed.

Lemma outcomes_all_rejected (lines : list (list ascii)) (h : heap) (states : table) :
  Forall (fun line => parse_line line = None) lines ->
  run_lines lines h states = (h, states) /\
  ~ In Folded (outcomes lines h states) /\
  ~ In NoMemory (outcomes lines h states).
Proof.
  induction lines as [|line lines IH]; intros H; simpl; [tauto|].
  inversion H as [|? ? Hl Hrest]; subst.
  assert (E0 : process_line h states line = (Skipped, h, states))
    by (unfold process_line; now rewrite Hl).
  rewrite E0. simpl.
  destruct (IH Hrest) as (E & Hf & Hn). intuition discriminate.
Qed.

(** C7 (amended).  For a file of at most [INT_MAX] lines read into a
    table with at least one slot, [analyze_file] returns 0 or -1; it
    returns 0 if and only if at least one line was folded and no
    allocation failed; it writes a diagnostic exactly when an allocation
    failed.  Whatever it returns, the table and the allocator it leaves
    are those of the turns of the loop it made: nothing is undone.  A
    file with no line, or with rejected lines only, gives -1 and an
    unchanged table. *)
Theorem analyze_file_result (f : FILE) (h : heap) (states : table) :
  states <> [] ->
  Z.of_nat (List.length (read_lines f)) <= INT_MAX ->
  let '(rc, h', states', ev) := analyze_file (Some f) h states in
  let outs := outcomes (read_lines f) h states in
  (rc = 0 \/ rc = -1) /\
  (rc = 0 <-> In Folded outs /\ ~ In NoMemory outs) /\
  (ev = [] <-> ~ In NoMemory outs) /\
  (h', states') = run_lines (read_lines f) h states /\
  (Forall (fun line => parse_line line = None) (read_lines f) ->
   rc = -1 /\ states' = states).
Proof.
  intros Hs Hb. unfold analyze_file. destruct states as [|s states]; [tauto|].
  set (st := s :: states) in *. clearbody st.
  pose proof (analyze_lines_rc (read_lines f) h st 0 ltac:(lia) ltac:(lia)) as Hrc.
  pose proof (analyze_lines_state (read_lines f) h st 0) as Hst.
  destruct (analyze_lines (read_lines f) h st 0) as [[[rc h'] states'] ev].
  simpl in Hrc. destruct Hrc as (Ha & Hiff & Hev).
  split; [exact Ha|]. split; [intuition lia|]. split; [exact Hev|].
  split; [exact Hst|]. intros H.
  destruct (outcomes_all_rejected _ h st H) as (E & Hf & Hn). split.
  - destruct Ha as [E0|E0]; trivial. apply Hiff in E0. intuition lia.
  - rewrite E in Hst. now injection Hst.
Qed.

(** ** Several files, one table *)

Lemma calloc_never_fails (h : heap) :
  never_fails h -> exists h', calloc h = (true, h') /\ never_fails h'.
Proof.
  intros H. destruct h as [|b h]; simpl.
  - exists []. split; trivial.
  - inversion H; subst. exists h. split; trivial.
Qed.

Lemma process_line_never_fails (h h' : heap) (states states' : table)
  (line : list ascii) (out : outcome) :
  never_fails h ->
  process_line h states line = (out, h', states') ->
  out <> NoMemory /\ never_fails h'.
Proof.
  intros Hh. unfold process_line.
  destruct (parse_line line) as [o|].
  2:{ intros H. injection H as <- <- <-. split; [discriminate | trivial]. }
  destruct (find_state states (state_code o) 0) as [j info|j|].
  - intros H. injection H as <- <- <-. split; [discriminate | trivial].
  - destruct (calloc_never_fails h Hh) as (h1 & -> & Hh1).
    intros H. injection H as <- <- <-. split; [discriminate | trivial].
  - intros H. injection H as <- <- <-. split; [discriminate | trivial].
Qed.

Lemma never_fails_outcomes (lines : list (list ascii)) :
  forall (h : heap) (states : table),
    never_fails h -> ~ In NoMemory (outcomes lines h states).
Proof.
  induction lines as [|line lines IH]; intros h states Hh; simpl; [tauto|].
  destruct (process_line h states line) as [[out h1] states1] eqn:Hp.
  destruct (process_line_never_fails _ _ _ _ _ _ Hh Hp) as [Hout Hh1].
  specialize (IH h1 states1 Hh1).
  destruct out; try contradiction; simpl; intuition discriminate.
Qed.


Lemma store_length (states : table) (i : nat) (p : option climate_info) :
  List.length (store states i p) = List.length states.
Proof.
  revert i. induction states as [|x states IH]; intros [|i]; simpl; auto.
Qed.




(** ** The exit policy of [main] *)

Lemma analyze_lines_no_stdout (lines : list (list ascii)) :
  forall (h : heap) (states : table) (lp : Z),
    let '(_, _, _, ev) := analyze_lines lines h states lp in
    filter is_stdout ev = [].
Proof.
  induction lines as [|line lines IH]; intros h states lp; simpl; trivial.
  destruct (process_line h states line) as [[[| |] h1] states1]; trivial; apply IH.
Qed.

Lemma analyze_file_no_stdout (file : option FILE) (h : heap) (states : table) :
  let '(_, _, _, ev) := analyze_file file h states in
  filter is_stdout ev = [].
Proof.
  unfold analyze_file. destruct file as [f|]; trivial.
  destruct states; trivial. apply analyze_lines_no_stdout.
Qed.

Lemma process_files_count (fs : filesystem) (args : list cstring) :
  forall (h : heap) (states : table) (fp : Z),
    let '(_, _, fp', ev) := process_files fs args h states fp in
    fp' = fp + successes (file_results fs args h states) /\
    filter is_stdout ev = [].
Proof.
  unfold successes.
  induction args as [|path args IH]; intros h states fp; simpl.
  - split; [lia | trivial].
  - destruct (fs path) as [f|].
    + pose proof (analyze_file_no_stdout (Some f) h states) as Hev.
      destruct (analyze_file (Some f) h states) as [[[rc h1] states1] ev1].
      specialize (IH h1 states1 (if rc =? 0 then fp + 1 else fp)).
      destruct (process_files fs args h1 states1 _) as [[[h2 states2] fp2] ev2].
      destruct IH as [-> Hev2]. simpl. split.
      * destruct (rc =? 0); simpl List.length; lia.
      * rewrite filter_app, Hev. simpl. rewrite filter_app.
        destruct (rc =? 0); simpl; exact Hev2.
    + specialize (IH h states fp).
      destruct (process_files fs args h states fp) as [[[h2 states2] fp2] ev2].
      destruct IH as [-> Hev2]. simpl. split; trivial.
Qed.

(** C8.  With no file argument [main] returns the failure status after
    one diagnostic on the error stream: it opens no file and prints
    nothing on the output.  With arguments, it first prints one notice
    per argument; if no file was processed successfully it ends with a
    diagnostic and the failure status, and the notices are all it
    printed; otherwise it prints the report of the final table once,
    after everything else, and returns the success status. *)
Theorem main_exit_policy (fs : filesystem) (h : heap) (argv : list cstring) :
  let args := tl argv in
  let run := process_files fs args h (repeat None NUM_STATES) 0 in
  let ok := successes (file_results fs args h (repeat None NUM_STATES)) in
  ((List.length argv < 2)%nat ->
   main fs h argv
   = (EXIT_FAILURE,
      [Stderr [Txt ("Not enough arguments provided. No file provided to analyze."
                    ++ nl)]])) /\
  ((2 <= List.length argv)%nat -> ok = 0 ->
   exists ev,
     main fs h argv
     = (EXIT_FAILURE,
        map opening_notice args ++ ev
        ++ [Stderr [Txt ("No valid files were processed." ++ nl)]]) /\
     filter is_stdout (snd (main fs h argv)) = map opening_notice args) /\
  ((2 <= List.length argv)%nat -> ok <> 0 ->
   exists ev,
     main fs h argv
     = (EXIT_SUCCESS,
        map opening_notice args ++ ev ++ print_report (final_table run)) /\
     filter is_stdout ev = []).
Proof.
  intros args run ok. subst run ok args. unfold main.
  pose proof (process_files_count fs (tl argv) h (repeat None NUM_STATES) 0) as Hc.
  destruct (process_files fs (tl argv) h (repeat None NUM_STATES) 0)
    as [[[h' states] fp] ev].
  destruct Hc as [Hfp Hev]. rewrite Z.add_0_l in Hfp.
  assert (Hnot : forall l, filter is_stdout (map opening_notice l)
                           = map opening_notice l).
  { induction l as [|a l IHl]; simpl; trivial. now rewrite IHl. }
  split; [|split].
  - intros Hlen. destruct (Z.ltb_spec (Z.of_nat (List.length argv)) 2); [trivial | lia].
  - intros Hlen Hok.
    destruct (Z.ltb_spec (Z.of_nat (List.length argv)) 2); [lia|].
    rewrite <- Hfp in Hok. rewrite Hok. cbn [Z.eqb snd]. exists ev. split; trivial.
    rewrite !filter_app, Hnot, Hev. simpl. now rewrite app_nil_r.
  - intros Hlen Hok.
    destruct (Z.ltb_spec (Z.of_nat (List.length argv)) 2); [lia|].
    rewrite <- Hfp in Hok.
    destruct (Z.eqb_spec fp 0) as [E|E]; [lia|].
    exists ev. split; trivial.
Qed.

(** ** Tokens *)

Lemma field_char_spec (c : ascii) :
  field_char c = true -> isspace c = false /\ c <> NUL.
Proof.
  unfold field_char. intros H. apply andb_true_iff in H. destruct H as [H1 H2].
  apply negb_true_iff in H1, H2. split; trivial.
  intros ->. now rewrite Ascii.eqb_refl in H2.
Qed.

Lemma field_ok_spec (f : list ascii) :
  field_ok f = true -> f <> [] /\ Forall (fun c => field_char c = true) f.
Proof.
  destruct f as [|c f]; [discriminate|]. unfold field_ok. intros H.
  split; [discriminate|]. apply Forall_forall. now apply forallb_forall.
Qed.

Lemma c_str_app (a b : list ascii) :
  Forall (fun c => c <> NUL) a -> c_str (a ++ b) = a ++ c_str b.
Proof.
  induction 1 as [|c a Hc Ha IH]; simpl; trivial.
  destruct (Ascii.eqb_spec c NUL); [contradiction|]. now rewrite IH.
Qed.

Lemma field_no_NUL (f : list ascii) :
  field_ok f = true -> Forall (fun c => c <> NUL) f.
Proof.
  intros H. apply field_ok_spec in H. destruct H as [_ H].
  eapply Forall_impl; [|exact H]. intros c Hc. now apply field_char_spec in Hc.
Qed.

Lemma isspace_not_NUL (c : ascii) : isspace c = true -> Ascii.eqb c NUL = false.
Proof.
  intros H. destruct (Ascii.eqb_spec c NUL) as [->|]; trivial. discriminate.
Qed.

Lemma c_str_tail_ok (tail : list ascii) : tail_ok tail -> tail_ok (c_str tail).
Proof.
  destruct tail as [|c t]; simpl; trivial. intros H.
  now rewrite (isspace_not_NUL c H).
Qed.

Lemma span_field (f tail : list ascii) :
  Forall (fun c => field_char c = true) f -> tail_ok tail ->
  span (fun c => negb (isspace c)) (f ++ tail) = (f, tail).
Proof.
  intros Hf Ht. induction Hf as [|c f Hc Hf IH]; simpl.
  - destruct tail as [|c t]; simpl in *; trivial. now rewrite Ht.
  - apply field_char_spec in Hc. destruct Hc as [-> _]. simpl. now rewrite IH.
Qed.

Lemma skip_space_field (f tail : list ascii) :
  field_ok f = true -> skip_space (f ++ tail) = f ++ tail.
Proof.
  intros H. apply field_ok_spec in H. destruct H as [Hne Hall].
  destruct f as [|c f]; [contradiction|]. inversion Hall as [|? ? Hc _]; subst.
  apply field_char_spec in Hc. destruct Hc as [Hc _]. simpl. now rewrite Hc.
Qed.

Lemma next_token_field (f tail : list ascii) :
  field_ok f = true -> tail_ok tail -> next_token (f ++ tail) = (f, tail).
Proof.
  intros Hf Ht. unfold next_token. rewrite skip_space_field by exact Hf.
  apply span_field; trivial. now apply field_ok_spec in Hf.
Qed.

Lemma skip_space_TAB (s : list ascii) : skip_space (TAB :: s) = skip_space s.
Proof. reflexivity. Qed.

Lemma next_token_after_TAB (f tail : list ascii) :
  field_ok f = true -> tail_ok tail ->
  next_token (skip_space (TAB :: f ++ tail)) = (f, tail).
Proof.
  intros Hf Ht. rewrite skip_space_TAB, skip_space_field by exact Hf.
  now apply next_token_field.
Qed.

Lemma whole_inv {A : Type} (r : option (A * list ascii)) (v : A) :
  whole r = Some v -> r = Some (v, []).
Proof.
  destruct r as [[x [|c s]]|]; simpl; try discriminate.
  intros H. now injection H as ->.
Qed.

Lemma conv_s_first (w : nat) (f tail : list ascii) :
  field_ok f = true -> tail_ok tail ->
  conv_s w (f ++ tail) = Some (firstn w f, skipn w f ++ tail).
Proof.
  intros Hf Ht. unfold conv_s. rewrite next_token_field by trivial.
  destruct f; [discriminate | reflexivity].
Qed.

Lemma conv_s_field (w : nat) (f tail : list ascii) :
  field_ok f = true -> tail_ok tail -> (List.length f <= w)%nat ->
  conv_s w (skip_space (TAB :: f ++ tail)) = Some (f, tail).
Proof.
  intros Hf Ht Hw. unfold conv_s. rewrite next_token_after_TAB by trivial.
  rewrite firstn_all2, skipn_all2 by exact Hw.
  destruct f; [discriminate | reflexivity].
Qed.

Lemma conv_llu_field (f tail : list ascii) (v : Z) :
  field_ok f = true -> tail_ok tail -> whole (scan_llu f) = Some v ->
  conv_llu (skip_space (TAB :: f ++ tail)) = Some (v, tail).
Proof.
  intros Hf Ht Hv. unfold conv_llu. rewrite next_token_after_TAB by trivial.
  now rewrite (whole_inv _ _ Hv).
Qed.

Lemma conv_lf_field (f tail : list ascii) (v : Fp.fp) :
  field_ok f = true -> tail_ok tail -> whole (scan_lf f) = Some v ->
  conv_lf (skip_space (TAB :: f ++ tail)) = Some (v, tail).
Proof.
  intros Hf Ht Hv. unfold conv_lf. rewrite next_token_after_TAB by trivial.
  now rewrite (whole_inv _ _ Hv).
Qed.

Lemma tail_ok_TAB (s : list ascii) : tail_ok (TAB :: s).
Proof. reflexivity. Qed.

(** Nine well-formed fields are converted one by one. *)
Lemma sscanf_tdv_fields (fields : list (list ascii)) (tail : list ascii)
  (o : observation) :
  spec_parse_fields fields = Some o -> tail_ok tail ->
  sscanf_tdv (join_tab fields ++ tail) = Some o /\
  Forall (fun c => c <> NUL) (join_tab fields).
Proof.
  intros H Ht.
  destruct fields as [|f1 [|f2 [|f3 [|f4 [|f5 [|f6 [|f7 [|f8 [|f9 [|f10 rest]]]]]]]]]];
    try discriminate.
  unfold spec_parse_fields in H.
  destruct (forallb field_ok _ && _ && _) eqn:Hc; [|discriminate].
  apply andb_true_iff in Hc. destruct Hc as [Hc Hl3].
  apply andb_true_iff in Hc. destruct Hc as [Hok Hl1].
  apply Nat.leb_le in Hl1, Hl3.
  cbn [forallb] in Hok. repeat (apply andb_true_iff in Hok; destruct Hok as [? Hok]).
  destruct (whole (scan_llu f2)) as [ts|] eqn:E2; [|discriminate].
  destruct (whole (scan_lf f4)) as [hu|] eqn:E4; [|discriminate].
  destruct (whole (scan_lf f5)) as [sn|] eqn:E5; [|discriminate].
  destruct (whole (scan_lf f6)) as [cl|] eqn:E6; [|discriminate].
  destruct (whole (scan_lf f7)) as [li|] eqn:E7; [|discriminate].
  destruct (whole (scan_lf f8)) as [pr|] eqn:E8; [|discriminate].
  destruct (whole (scan_lf f9)) as [te|] eqn:E9; [|discriminate].
  injection H as <-. cbn [join_tab]. split.
  - rewrite <- !app_assoc, <- !app_comm_cons.
    repeat (rewrite <- !app_assoc, <- !app_comm_cons).
    unfold sscanf_tdv.
    rewrite (conv_s_first 2 f1) by (trivial; apply tail_ok_TAB).
    rewrite firstn_all2, skipn_all2 by exact Hl1. cbn [app].
    rewrite (conv_llu_field f2 _ ts) by (trivial; apply tail_ok_TAB).
    rewrite (conv_s_field 12 f3) by (trivial; apply tail_ok_TAB).
    rewrite (conv_lf_field f4 _ hu) by (trivial; apply tail_ok_TAB).
    rewrite (conv_lf_field f5 _ sn) by (trivial; apply tail_ok_TAB).
    rewrite (conv_lf_field f6 _ cl) by (trivial; apply tail_ok_TAB).
    rewrite (conv_lf_field f7 _ li) by (trivial; apply tail_ok_TAB).
    rewrite (conv_lf_field f8 _ pr) by (trivial; apply tail_ok_TAB).
    rewrite (conv_lf_field f9 _ te) by trivial.
    reflexivity.
  - assert (Htab : TAB <> NUL) by discriminate.
    repeat match goal with
           | Hf : field_ok _ = true |- _ => apply field_no_NUL in Hf
           end.
    repeat (apply Forall_app; split; trivial; try (constructor; trivial)).
Qed.

(** ** White space around the fields *)

Lemma skip_space_all (s : list ascii) :
  Forall (fun c => isspace c = true) s -> skip_space s = [].
Proof. induction 1 as [|c s Hc _ IH]; simpl; trivial. now rewrite Hc. Qed.

Lemma skip_space_sep (sep s : list ascii) :
  all_space sep -> skip_space (sep ++ s) = skip_space s.
Proof. induction 1 as [|c sep Hc _ IH]; simpl; trivial. now rewrite Hc. Qed.

Lemma skip_space_idem (s : list ascii) : skip_space (skip_space s) = skip_space s.
Proof.
  induction s as [|c s IH]; simpl; trivial.
  destruct (isspace c) eqn:E; trivial. simpl. now rewrite E.
Qed.

Lemma next_token_skip (s : list ascii) : next_token (skip_space s) = next_token s.
Proof. unfold next_token. now rewrite skip_space_idem. Qed.

Lemma next_token_sep (sep f tl : list ascii) :
  all_space sep -> field_ok f = true -> tail_ok tl ->
  next_token (sep ++ f ++ tl) = (f, tl).
Proof.
  intros Hs Hf Ht. rewrite <- next_token_skip, skip_space_sep by exact Hs.
  rewrite next_token_skip. now apply next_token_field.
Qed.

Lemma tail_ok_sep (sep s : list ascii) :
  all_space sep -> sep <> [] -> tail_ok (sep ++ s).
Proof. intros H Hne. destruct H; [contradiction | assumption]. Qed.

Lemma conv_s_sep (w : nat) (sep f tl : list ascii) :
  all_space sep -> field_ok f = true -> tail_ok tl -> (List.length f <= w)%nat ->
  conv_s w (skip_space (sep ++ f ++ tl)) = Some (f, tl) /\
  conv_s w (sep ++ f ++ tl) = Some (f, tl).
Proof.
  intros Hs Hf Ht Hw. unfold conv_s.
  rewrite next_token_skip, next_token_sep by trivial.
  rewrite firstn_all2, skipn_all2 by exact Hw.
  destruct f; [discriminate | now split].
Qed.

Lemma conv_llu_sep (sep f tl : list ascii) (v : Z) :
  all_space sep -> field_ok f = true -> tail_ok tl ->
  whole (scan_llu f) = Some v ->
  conv_llu (skip_space (sep ++ f ++ tl)) = Some (v, tl).
Proof.
  intros Hs Hf Ht Hv. unfold conv_llu.
  rewrite next_token_skip, next_token_sep by trivial.
  now rewrite (whole_inv _ _ Hv).
Qed.

Lemma conv_lf_sep (sep f tl : list ascii) (v : Fp.fp) :
  all_space sep -> field_ok f = true -> tail_ok tl ->
  whole (scan_lf f) = Some v ->
  conv_lf (skip_space (sep ++ f ++ tl)) = Some (v, tl).
Proof.
  intros Hs Hf Ht Hv. unfold conv_lf.
  rewrite next_token_skip, next_token_sep by trivial.
  now rewrite (whole_inv _ _ Hv).
Qed.

Lemma all_space_no_NUL (sep : list ascii) :
  all_space sep -> Forall (fun c => c <> NUL) sep.
Proof.
  intros H. eapply Forall_impl; [|exact H]. intros c Hc ->. discriminate.
Qed.

(** ** Ranges *)

Lemma fp_lt_false_fin (a b : Q) :
  Fp.lt (Fp.Fin a) (Fp.Fin b) = false -> (b <= a)%Q.
Proof.
  unfold Fp.lt. destruct (Qcompare a b) eqn:E; intros H.
  - apply Qeq_alt in E. rewrite E. apply Qle_refl.
  - discriminate.
  - apply Qgt_alt in E. now apply Qlt_le_weak.
Qed.

Lemma out_of_range_false (o : observation) :
  out_of_range o = false ->
  Fp.lt (humidity o) (Fp.of_Z 0) = false /\
  Fp.lt (Fp.of_Z 100) (humidity o) = false /\
  Fp.lt (cloudcover o) (Fp.of_Z 0) = false /\
  Fp.lt (Fp.of_Z 100) (cloudcover o) = false /\
  Fp.lt (temperature o) (Fp.of_Z 0) = false.
Proof.
  unfold out_of_range. intros H.
  repeat (apply orb_false_iff in H; destruct H as [H ?]). auto.
Qed.

(** C2 (amended).  The parser yields an observation exactly when the
    line held by the buffer is shorter than 99 characters, [sscanf]
    converts nine items from it and none of the five range tests holds.
    In particular a line of nine tab-separated fields, each parseable as a
    whole in its type, without range violation and shorter than 99
    characters, yields the observation of its fields, also when white
    space and further text follow the ninth field.  The finite humidity
    and cloud cover of a yielded observation lie in [0,100] and its
    finite temperature is not negative.  A rejected line leaves the
    table and the allocator untouched and is not counted. *)
Theorem parse_line_characterisation :
  (forall (fields : list (list ascii)) (tail : list ascii) (o : observation),
      spec_parse_fields fields = Some o ->
      out_of_range o = false ->
      tail_ok tail ->
      strlen (join_tab fields ++ tail) < LINE_BUFFER - 1 ->
      parse_line (join_tab fields ++ tail) = Some o) /\
  (forall (line : list ascii) (o : observation),
      parse_line line = Some o <->
      strlen line < LINE_BUFFER - 1 /\
      sscanf_tdv (c_str line) = Some o /\
      out_of_range o = false) /\
  (forall (line : list ascii) (o : observation),
      parse_line line = Some o ->
      (forall q, humidity o = Fp.Fin q -> (0 <= q <= 100)%Q) /\
      (forall q, cloudcover o = Fp.Fin q -> (0 <= q <= 100)%Q) /\
      (forall q, temperature o = Fp.Fin q -> (0 <= q)%Q)) /\
  (forall (line : list ascii) (h : heap) (states : table),
      parse_line line = None ->
      process_line h states line = (Skipped, h, states) /\
      forall rest lp,
        analyze_lines (line :: rest) h states lp
        = analyze_lines rest h states lp).
Proof.
  split; [|split; [|split]].
  - intros fields tail o Hf Hr Ht Hlen. unfold parse_line.
    destruct (Z.leb_spec (LINE_BUFFER - 1) (strlen (join_tab fields ++ tail)));
      [lia|].
    destruct (sscanf_tdv_fields fields (c_str tail) o Hf (c_str_tail_ok _ Ht))
      as [Hs Hn].
    rewrite c_str_app by exact Hn. now rewrite Hs, Hr.
  - intros line o. split; [apply parse_line_inv|].
    intros (Hl & Hs & Hr). unfold parse_line.
    destruct (Z.leb_spec (LINE_BUFFER - 1) (strlen line)); [lia|].
    now rewrite Hs, Hr.
  - intros line o H. apply parse_line_inv in H. destruct H as (_ & _ & H).
    apply out_of_range_false in H. destruct H as (H1 & H2 & H3 & H4 & H5).
    split; [|split]; intros q E; rewrite E in *; try split.
    + exact (fp_lt_false_fin q 0 H1).
    + exact (fp_lt_false_fin 100 q H2).
    + exact (fp_lt_false_fin q 0 H3).
    + exact (fp_lt_false_fin 100 q H4).
    + exact (fp_lt_false_fin q 0 H5).
  - intros line h states H.
    assert (E : process_line h states line = (Skipped, h, states))
      by (unfold process_line; now rewrite H).
    split; trivial. intros rest lp. simpl. now rewrite E.
Qed.

(** C10 (amended).  Of a state-code field longer than two characters,
    [%2s] takes the first two as the state code and leaves the others in
    the input, where the conversion of the timestamp starts: the line is
    rejected whenever the third character of the field is neither a digit
    nor a sign. *)
Theorem long_state_code_not_truncated (field rest : list ascii) :
  field_ok field = true ->
  (2 < List.length field)%nat ->
  conv_s 2 (field ++ TAB :: rest)
  = Some (firstn 2 field, skipn 2 field ++ TAB :: rest) /\
  (forall c3 : ascii,
      nth_error field 2 = Some c3 ->
      isdigit c3 = false -> c3 <> "+"%char -> c3 <> "-"%char ->
      parse_line (field ++ TAB :: rest) = None).
Proof.
  intros Hf Hlen. split.
  - apply conv_s_first; [exact Hf | apply tail_ok_TAB].
  - intros c3 Hc3 Hd Hplus Hminus. unfold parse_line.
    destruct (LINE_BUFFER - 1 <=? strlen (field ++ TAB :: rest)); trivial.
    rewrite c_str_app by now apply field_no_NUL.
    change (c_str (TAB :: rest)) with (TAB :: c_str rest).
    unfold sscanf_tdv.
    rewrite conv_s_first by (trivial; apply tail_ok_TAB).
    destruct field as [|c1 [|c2 [|c3' field']]]; simpl in Hlen; try lia.
    simpl in Hc3. injection Hc3 as ->.
    assert (Hf' : field_ok (c3 :: field') = true).
    { unfold field_ok in *. cbn [forallb] in *.
      apply andb_true_iff in Hf. destruct Hf as [_ Hf].
      apply andb_true_iff in Hf. destruct Hf as [_ Hf]. exact Hf. }
    cbn [skipn]. unfold conv_llu.
    rewrite skip_space_field by exact Hf'.
    rewrite next_token_field by (trivial; apply tail_ok_TAB).
    unfold scan_llu, scan_sign.
    destruct (Ascii.eqb_spec c3 "-"); [contradiction|].
    destruct (Ascii.eqb_spec c3 "+"); [contradiction|].
    cbn [span]. rewrite Hd. reflexivity.
Qed.

(** ** Reading a stream line by line *)

Lemma fgets_chars_split (n : nat) (f : FILE) :
  f = fst (fgets_chars n f) ++ snd (fgets_chars n f).
Proof.
  revert f. induction n as [|n IH]; intros [|c f]; simpl; trivial.
  destruct (Ascii.eqb c LF); simpl; trivial.
  specialize (IH f). destruct (fgets_chars n f) as [l r]. simpl in *.
  now rewrite <- IH.
Qed.

Lemma fgets_chars_progress (n : nat) (c : ascii) (f : FILE) :
  (List.length (snd (fgets_chars (S n) (c :: f))) <= List.length f)%nat.
Proof.
  simpl. destruct (Ascii.eqb c LF); simpl; [lia|].
  pose proof (fgets_chars_split n f) as H.
  destruct (fgets_chars n f) as [l r]. simpl in *.
  apply (f_equal (@List.length ascii)) in H. rewrite length_app in H. lia.
Qed.

Lemma fgets_shorter (f f' : FILE) (line : list ascii) :
  fgets LINE_BUFFER f = Some (line, f') ->
  (List.length f' < List.length f)%nat /\ f = line ++ f'.
Proof.
  unfold fgets. destruct f as [|c f]; [discriminate|].
  change (Z.to_nat (LINE_BUFFER - 1)) with 99%nat.
  pose proof (fgets_chars_progress 98 c f) as Hp.
  pose proof (fgets_chars_split 99 (c :: f)) as Hs.
  destruct (fgets_chars 99 (c :: f)) as [l r]. simpl fst in *. simpl snd in *.
  intros H. injection H as <- <-. split; [simpl; lia | exact Hs].
Qed.

Lemma read_lines_fuel_enough (n : nat) :
  forall (m : nat) (f : FILE),
    (List.length f < n)%nat -> (List.length f < m)%nat ->
    read_lines_fuel n f = read_lines_fuel m f.
Proof.
  induction n as [|n IH]; intros m f Hn Hm; [lia|].
  destruct m as [|m]; [lia|]. simpl.
  destruct (fgets LINE_BUFFER f) as [[line f']|] eqn:E; trivial.
  apply fgets_shorter in E. destruct E as [E _]. f_equal. apply IH; lia.
Qed.

(** The fuel of [read_lines] always suffices: the lines are those [fgets]
    returns in turn, up to the end of the stream. *)
Lemma read_lines_unfold (f : FILE) :
  read_lines f
  = match fgets LINE_BUFFER f with
    | None => []
    | Some (line, f') => line :: read_lines f'
    end.
Proof.
  unfold read_lines at 1. simpl read_lines_fuel.
  destruct (fgets LINE_BUFFER f) as [[line f']|] eqn:E; trivial.
  apply fgets_shorter in E. destruct E as [E _]. f_equal.
  unfold read_lines. apply read_lines_fuel_enough; lia.
Qed.

(** Every character of the stream is delivered, in order. *)
Lemma read_lines_concat (f : FILE) : List.concat (read_lines f) = f.
Proof.
  remember (List.length f) as n eqn:Hn. revert f Hn.
  induction n as [n IH] using lt_wf_ind. intros f Hn.
  rewrite read_lines_unfold.
  destruct (fgets LINE_BUFFER f) as [[line f']|] eqn:E.
  - apply fgets_shorter in E. destruct E as [Hlt Hf]. simpl.
    rewrite (IH (List.length f')); [now symmetry | lia | reflexivity].
  - unfold fgets in E. destruct f; [reflexivity | discriminate].
Qed.

Lemma complete_lines_tail (c : ascii) (f : FILE) :
  complete_lines (c :: f) -> c <> LF -> f <> [] /\ complete_lines f.
Proof.
  intros [H|[f0 H]] Hc; [discriminate|].
  destruct f0 as [|d f0]; simpl in H; injection H as -> ->.
  - contradiction.
  - split; [now destruct f0 | right; now exists f0].
Qed.

Lemma complete_lines_suffix (l r : list ascii) :
  complete_lines (l ++ r) -> r <> [] -> complete_lines r.
Proof.
  intros [H|[f0 H]] Hr.
  - apply app_eq_nil in H. tauto.
  - destruct (exists_last Hr) as (r0 & x & ->).
    rewrite app_assoc in H. apply app_inj_tail in H. destruct H as [_ ->].
    right. now exists r0.
Qed.

Lemma fgets_chars_app (n : nat) :
  forall (a b : FILE),
    a <> [] -> complete_lines a ->
    fgets_chars n (a ++ b)
    = (fst (fgets_chars n a), snd (fgets_chars n a) ++ b).
Proof.
  induction n as [|n IH]; intros a b Hne Hc.
  - destruct a; [contradiction | reflexivity].
  - destruct a as [|c a]; [contradiction|]. simpl.
    destruct (Ascii.eqb_spec c LF) as [->|Hc']; [reflexivity|].
    destruct (complete_lines_tail c a Hc Hc') as [Hne' Hca].
    rewrite (IH a b Hne' Hca). now destruct (fgets_chars n a).
Qed.

(** The lines of a stream of complete lines followed by another stream
    are the lines of the first followed by the lines of the second. *)
Lemma read_lines_app (a b : FILE) :
  complete_lines a -> read_lines (a ++ b) = read_lines a ++ read_lines b.
Proof.
  remember (List.length a) as n eqn:Hn. revert a Hn.
  induction n as [n IH] using lt_wf_ind. intros a Hn Hc.
  destruct a as [|c a]; [reflexivity|].
  rewrite (read_lines_unfold ((c :: a) ++ b)), (read_lines_unfold (c :: a)).
  unfold fgets. cbn [app].
  pose proof (fgets_chars_app (Z.to_nat (LINE_BUFFER - 1)) (c :: a) b
                ltac:(discriminate) Hc) as E.
  cbn [app] in E. rewrite E.
  pose proof (fgets_chars_progress 98 c a) as Hp.
  pose proof (fgets_chars_split 99 (c :: a)) as Hs.
  change (Z.to_nat (LINE_BUFFER - 1)) with 99%nat.
  destruct (fgets_chars 99 (c :: a)) as [l r]. simpl fst in *. simpl snd in *.
  simpl. f_equal. destruct r as [|d r].
  - reflexivity.
  - apply (IH (List.length (d :: r))); trivial.
    + simpl in *. lia.
    + rewrite Hs in Hc. apply complete_lines_suffix in Hc; [trivial | discriminate].
Qed.

(** * The statements at concrete inputs *)

Example parse_scenario_A : parse_line scenario_A = Some obs_A.
Proof. vm_compute. reflexivity. Qed.

Example parse_line_TN : parse_line line_TN = Some obs_TN.
Proof. vm_compute. reflexivity. Qed.

(** A humidity that is not a number passes the range tests. *)
Example nan_humidity_accepted :
  exists o,
    parse_line
      (tdv ["CA"; "1428300000000"; "9prcjqk3yc80"; "nan"; "0.0"; "100.0";
            "0.0"; "95644.0"; "277.58716"]%string) = Some o /\
    humidity o = Fp.NaN.
Proof. eexists. vm_compute. split; reflexivity. Qed.

Example fields_of_scenario_A : tab_fields (chomp scenario_A) = fields_A.
Proof. vm_compute. reflexivity. Qed.

Lemma update_info_fold_witness :
  valid_info (new_info (lit "CA")) /\
  num_records (update_info (new_info (lit "CA")) obs_A) = 1.
Proof.
  assert (Hv : valid_info (new_info (lit "CA"))).
  { unfold valid_info, ulong_range, ULONG_MAX. simpl. lia. }
  split; [exact Hv|].
  destruct (update_info_fold (new_info (lit "CA")) obs_A Hv)
    as (_ & _ & Hn & _).
  rewrite Hn. reflexivity.
Defined.


(** The table of [main] after the line of scenario A. *)
Lemma reachable_after_scenario_A :
  reachable 1 [lit "CA"] []
    (store (repeat None NUM_STATES) 0
       (Some (update_info (new_info (lit "CA")) obs_A))).
Proof.
  refine (reach_line 0 [] [] [] _ _ scenario_A Folded (reach_start []) _).
  vm_compute. reflexivity.
Defined.

(** The same table after a line for TN and the line of scenario A again. *)
Lemma reachable_after_three_lines :
  reachable 3 [lit "CA"; lit "TN"; lit "CA"] []
    (store
       (store (repeat None NUM_STATES) 0
          (Some (update_info (update_info (new_info (lit "CA")) obs_A) obs_A)))
       1 (Some (update_info (new_info (lit "TN")) obs_TN))).
Proof.
  refine (reach_line 2 [lit "CA"; lit "TN"] [] [] _ _ scenario_A Folded _ _).
  - refine (reach_line 1 [lit "CA"] [] [] _ _ line_TN Folded
              reachable_after_scenario_A _).
    vm_compute. reflexivity.
  - vm_compute. reflexivity.
Defined.

Lemma created_accumulator_has_records_witness :
  1 <= num_records (update_info (new_info (lit "CA")) obs_A).
Proof.
  refine (proj1 (created_accumulator_has_records 1 [lit "CA"] [] _ _
                   reachable_after_scenario_A _ _)).
  - vm_compute. discriminate.
  - left. reflexivity.
Defined.

Lemma report_lists_first_sightings_witness :
  map code
    (present
       (store
          (store (repeat None NUM_STATES) 0
             (Some (update_info (update_info (new_info (lit "CA")) obs_A) obs_A)))
          1 (Some (update_info (new_info (lit "TN")) obs_TN))))
  = [lit "CA"; lit "TN"].
Proof.
  exact (proj1 (proj2 (report_lists_first_sightings 3 _ [] _
                         reachable_after_three_lines))).
Defined.

Lemma full_table_is_full :
  Forall (fun s : option climate_info => s <> None) full_table /\
  forall info, In (Some info) full_table ->
               strcmp (code info) (state_code obs_TN) <> 0.
Proof.
  split.
  - apply Forall_forall. intros s Hs. unfold full_table in Hs.
    apply in_map_iff in Hs. destruct Hs as (c & <- & _). discriminate.
  - assert (H : forallb
                  (fun s => match s with
                            | Some info =>
                                negb (strcmp (code info) (state_code obs_TN) =? 0)
                            | None => true
                            end) full_table = true)
      by (vm_compute; reflexivity).
    intros info Hin. rewrite forallb_forall in H. specialize (H _ Hin).
    simpl in H. apply negb_true_iff in H. now apply Z.eqb_neq in H.
Defined.

Lemma full_table_discards_new_code_witness :
  process_line [] full_table line_TN = (Skipped, [], full_table).
Proof.
  exact (proj1 (full_table_discards_new_code [] full_table line_TN obs_TN
                  parse_line_TN (proj1 full_table_is_full)
                  (proj2 full_table_is_full))).
Defined.


Lemma analyze_file_result_witness :
  fst (fst (fst (analyze_file (Some file_a) [] (repeat None NUM_STATES)))) = 0.
Proof.
  assert (H1 : repeat (@None climate_info) NUM_STATES <> []) by discriminate.
  assert (H2 : Z.of_nat (List.length (read_lines file_a)) <= INT_MAX)
    by (vm_compute; discriminate).
  pose proof (analyze_file_result file_a [] (repeat None NUM_STATES) H1 H2) as H.
  destruct (analyze_file (Some file_a) [] (repeat None NUM_STATES))
    as [[[rc h'] states'] ev].
  destruct H as (_ & Hiff & _). simpl. apply Hiff. split.
  - vm_compute. left. reflexivity.
  - vm_compute. intros [H|[H|[]]]; discriminate.
Defined.

Lemma main_exit_policy_witness :
  main three_files [] [lit "climate"]
  = (EXIT_FAILURE,
     [Stderr [Txt ("Not enough arguments provided. No file provided to analyze."
                   ++ nl)]]) /\
  fst (main three_files [] [lit "climate"; lit "missing"; lit "a.tdv"])
  = EXIT_SUCCESS.
Proof.
  split.
  - apply (proj1 (main_exit_policy three_files [] [lit "climate"])).
    simpl. lia.
  - destruct (proj2 (proj2 (main_exit_policy three_files []
                              [lit "climate"; lit "missing"; lit "a.tdv"])))
      as (ev & E & _).
    + simpl. lia.
    + vm_compute. discriminate.
    + rewrite E. reflexivity.
Defined.

Lemma parse_line_characterisation_witness :
  parse_line (join_tab fields_A ++ [LF]) = Some obs_A.
Proof.
  apply (proj1 parse_line_characterisation fields_A [LF] obs_A).
  - vm_compute. reflexivity.
  - vm_compute. reflexivity.
  - reflexivity.
  - vm_compute. reflexivity.
Defined.

Lemma long_state_code_not_truncated_witness :
  parse_line
    (lit "CAL" ++ TAB :: tl (tl (tl scenario_A))) = None.
Proof.
  refine (proj2 (long_state_code_not_truncated (lit "CAL") _ _ _) "L"%char _ _ _ _).
  - reflexivity.
  - simpl. lia.
  - reflexivity.
  - reflexivity.
  - discriminate.
  - discriminate.
Defined.

(** * Where the specification and the program differ *)

(** C2: a line of ten tab-separated fields is accepted. *)
Lemma ten_fields_accepted :
  parse_line line_ten_fields = Some obs_A /\
  List.length (tab_fields (chomp line_ten_fields)) = 10%nat /\
  spec_parse_fields (tab_fields (chomp line_ten_fields)) = None.
Proof. vm_compute. repeat split. Qed.

(** C7: the allocation for the second state fails after the first line
    was folded: [analyze_file] returns -1 although a line was folded, and
    the accumulator of that line stays in the table. *)
Lemma failure_reported_after_a_fold :
  fst (fst (fst (analyze_file (Some file_a) [true; false]
                   (repeat None NUM_STATES)))) = -1 /\
  In Folded (outcomes (read_lines file_a) [true; false] (repeat None NUM_STATES)) /\
  snd (fst (analyze_file (Some file_a) [true; false] (repeat None NUM_STATES)))
  = store (repeat None NUM_STATES) 0
      (Some (update_info (new_info (lit "CA")) obs_A)).
Proof.
  split; [vm_compute; reflexivity|]. split.
  - vm_compute. left. reflexivity.
  - vm_compute. reflexivity.
Qed.

(** C10: with the state code CAL instead of CA the line of scenario A is
    rejected, not accepted with the code cut to CA. *)
Lemma three_letter_code_rejected :
  parse_line scenario_A = Some obs_A /\
  line_CAL = lit "CAL" ++ skipn 2 scenario_A /\
  parse_line line_CAL = None.
Proof. vm_compute. repeat split. Qed.

(** * Further properties of the program *)

(** ** What the reading loop sees of a stream *)

Lemma fgets_chars_shape (n : nat) :
  forall f : FILE,
    (List.length (fst (fgets_chars n f)) <= n)%nat /\
    (forall a b, fst (fgets_chars n f) = a ++ LF :: b -> b = []) /\
    (List.length (fst (fgets_chars n f)) < n ->
     ~ In LF (fst (fgets_chars n f)) -> snd (fgets_chars n f) = [])%nat.
Proof.
  induction n as [|n IH]; intros f.
  - simpl. repeat split; try lia. intros [|x a] b H; discriminate.
  - destruct f as [|c f]; simpl.
    + repeat split; try lia. intros [|x a] b H; discriminate.
    + destruct (Ascii.eqb_spec c LF) as [->|Hc]; simpl.
      * repeat split; try lia.
        -- intros [|x a] b H; simpl in H.
           ++ now injection H as <-.
           ++ injection H as _ H. destruct a; discriminate.
        -- intros _ H. exfalso. apply H. now left.
      * specialize (IH f). destruct (fgets_chars n f) as [l r]. simpl in *.
        destruct IH as (Hlen & Hlf & Hend). repeat split; try lia.
        -- intros [|x a] b H; simpl in H.
           ++ injection H as H _. contradiction.
           ++ injection H as _ H. eapply Hlf; eauto.
        -- intros Hlt Hin. apply Hend; [lia | tauto].
Qed.

(** X1.  The lines [fgets] hands to the loop of [analyze_file] cut the
    stream into pieces without losing or reordering a character: their
    concatenation is the content of the stream.  Each line is non-empty
    and at most 99 characters long, and a newline can only be its last
    character. *)
Theorem read_lines_partition (f : FILE) :
  List.concat (read_lines f) = f /\
  Forall (fun line =>
            line <> [] /\ (List.length line <= 99)%nat /\
            forall a b, line = a ++ LF :: b -> b = [])
         (read_lines f).
Proof.
  remember (List.length f) as n eqn:Hn. revert f Hn.
  induction n as [n IH] using lt_wf_ind. intros f Hn.
  rewrite read_lines_unfold.
  destruct (fgets LINE_BUFFER f) as [[line f']|] eqn:E.
  - pose proof (fgets_shorter _ _ _ E) as [Hlt Hf].
    destruct (IH (List.length f') ltac:(lia) f' eq_refl) as [Hc Hall].
    split; [simpl; now rewrite Hc|]. constructor; trivial.
    unfold fgets in E. destruct f as [|c f]; [discriminate|].
    change (Z.to_nat (LINE_BUFFER - 1)) with 99%nat in E.
    pose proof (fgets_chars_shape 99 (c :: f)) as (Hlen & Hlf & _).
    assert (E' : fgets_chars 99 (c :: f) = (line, f')) by congruence.
    rewrite E' in Hlen, Hlf. cbn [fst] in Hlen, Hlf.
    repeat split; trivial.
    intros ->. cbn [app] in Hf. subst f'. lia.
  - unfold fgets in E. destruct f; [|discriminate]. split; [reflexivity | constructor].
Qed.

Lemma fgets_chars_full (pad rest : list ascii) :
  ~ In LF pad ->
  fgets_chars (List.length pad) (pad ++ rest) = (pad, rest).
Proof.
  induction pad as [|c pad IH]; intros Hlf; simpl.
  - now destruct rest.
  - destruct (Ascii.eqb_spec c LF) as [->|Hc].
    + exfalso. apply Hlf. now left.
    + rewrite IH; [reflexivity|]. intros H. apply Hlf. now right.
Qed.

Lemma c_str_id (s : list ascii) : ~ In NUL s -> c_str s = s.
Proof.
  induction s as [|c s IH]; intros H; simpl; trivial.
  destruct (Ascii.eqb_spec c NUL) as [->|Hc].
  - exfalso. apply H. now left.
  - rewrite IH; [reflexivity|]. intros Hin. apply H. now right.
Qed.

(** X2.  A physical line is not skipped as a whole when it is too long.
    If a stream starts with 99 characters holding neither a newline nor a
    NUL, [fgets] delivers exactly these as one line, the length guard
    skips it, and what follows on the same physical line is read as a
    line of its own: processing the stream is processing its rest. *)
Theorem overlong_line_rest_is_a_line
  (pad rest : list ascii) (h : heap) (states : table) :
  List.length pad = 99%nat -> ~ In LF pad -> ~ In NUL pad ->
  read_lines (pad ++ rest) = pad :: read_lines rest /\
  parse_line pad = None /\
  analyze_file (Some (pad ++ rest)) h states = analyze_file (Some rest) h states.
Proof.
  intros Hlen Hlf Hnul.
  assert (Hr : read_lines (pad ++ rest) = pad :: read_lines rest).
  { rewrite read_lines_unfold. unfold fgets.
    destruct (pad ++ rest) as [|c s] eqn:E.
    - destruct pad; [discriminate | discriminate].
    - rewrite <- E. change (Z.to_nat (LINE_BUFFER - 1)) with 99%nat.
      rewrite <- Hlen. now rewrite fgets_chars_full. }
  assert (Hp : parse_line pad = None).
  { unfold parse_line, strlen. rewrite c_str_id by exact Hnul. rewrite Hlen.
    reflexivity. }
  repeat split; trivial.
  unfold analyze_file. destruct states as [|s states]; trivial.
  rewrite Hr. cbn [analyze_lines]. unfold process_line at 1. now rewrite Hp.
Qed.

Lemma overlong_line_rest_is_a_line_witness :
  fst (fst (fst (analyze_file
                   (Some (repeat "x"%char 99 ++ scenario_A)) []
                   (repeat None NUM_STATES)))) = 0.
Proof.
  destruct (overlong_line_rest_is_a_line (repeat "x"%char 99) scenario_A []
              (repeat None NUM_STATES)) as (_ & _ & E).
  - reflexivity.
  - vm_compute. intuition discriminate.
  - vm_compute. intuition discriminate.
  - rewrite E. vm_compute. reflexivity.
Defined.

Lemma c_str_all_space (s : list ascii) :
  Forall (fun c => isspace c = true) s ->
  Forall (fun c => isspace c = true) (c_str s).
Proof.
  induction 1 as [|c s Hc _ IH]; simpl; [constructor|].
  rewrite (isspace_not_NUL c Hc). now constructor.
Qed.

(** X3.  Empty and blank lines are skipped: a line made of white space
    only (a lone newline, spaces, tabs), whatever its length, is rejected
    by the parser, and so is a line whose first character is NUL. *)
Theorem blank_line_rejected (line : list ascii) :
  (Forall (fun c => isspace c = true) line -> parse_line line = None) /\
  (forall rest, parse_line (NUL :: rest) = None).
Proof.
  split.
  - intros H. unfold parse_line.
    destruct (LINE_BUFFER - 1 <=? strlen line); trivial.
    unfold sscanf_tdv, conv_s, next_token.
    now rewrite (skip_space_all _ (c_str_all_space _ H)).
  - intros rest. reflexivity.
Qed.

Lemma blank_line_rejected_witness :
  parse_line [" "%char; TAB; LF] = None.
Proof.
  apply (proj1 (blank_line_rejected [" "%char; TAB; LF])).
  repeat constructor.
Defined.

(** ** White space between the fields *)

(** X4.  The fields need not be separated by tabs.  Nine fields, each
    parseable as a whole in its type, are read as the same observation
    whatever white space separates them (any non-empty run of spaces,
    tabs or other white-space characters) and whatever white space
    precedes the first one (none included), provided the line is shorter
    than 99 characters and within the ranges. *)
Theorem any_white_space_separates
  (seps fields : list (list ascii)) (tail : list ascii) (o : observation) :
  spec_parse_fields fields = Some o ->
  out_of_range o = false ->
  List.length seps = 9%nat ->
  Forall all_space seps ->
  Forall (fun s => s <> []) (tl seps) ->
  tail_ok tail ->
  strlen (interleave seps fields ++ tail) < LINE_BUFFER - 1 ->
  parse_line (interleave seps fields ++ tail) = Some o.
Proof.
  intros H Hr Hlen Hsp Hne Ht Hl.
  destruct fields as [|f1 [|f2 [|f3 [|f4 [|f5 [|f6 [|f7 [|f8 [|f9 [|f10 rest]]]]]]]]]];
    try discriminate.
  destruct seps as [|s1 [|s2 [|s3 [|s4 [|s5 [|s6 [|s7 [|s8 [|s9 [|s10 srest]]]]]]]]]];
    try discriminate.
  unfold spec_parse_fields in H.
  destruct (forallb field_ok _ && _ && _) eqn:Hc; [|discriminate].
  apply andb_true_iff in Hc. destruct Hc as [Hc Hl3].
  apply andb_true_iff in Hc. destruct Hc as [Hok Hl1].
  apply Nat.leb_le in Hl1, Hl3.
  cbn [forallb] in Hok. repeat (apply andb_true_iff in Hok; destruct Hok as [? Hok]).
  destruct (whole (scan_llu f2)) as [ts|] eqn:E2; [|discriminate].
  destruct (whole (scan_lf f4)) as [hu|] eqn:E4; [|discriminate].
  destruct (whole (scan_lf f5)) as [sn|] eqn:E5; [|discriminate].
  destruct (whole (scan_lf f6)) as [cl|] eqn:E6; [|discriminate].
  destruct (whole (scan_lf f7)) as [li|] eqn:E7; [|discriminate].
  destruct (whole (scan_lf f8)) as [pr|] eqn:E8; [|discriminate].
  destruct (whole (scan_lf f9)) as [te|] eqn:E9; [|discriminate].
  injection H as <-.
  repeat match goal with
         | Hx : Forall all_space (_ :: _) |- _ =>
             let Ha := fresh "Hs" in
             inversion Hx as [|? ? Ha ?]; subst; clear Hx
         end.
  cbn [tl] in Hne.
  repeat match goal with
         | Hx : Forall (fun s => s <> []) (_ :: _) |- _ =>
             let Ha := fresh "Hn" in
             inversion Hx as [|? ? Ha ?]; subst; clear Hx
         end.
  unfold parse_line.
  destruct (Z.leb_spec (LINE_BUFFER - 1)
              (strlen (interleave [s1; s2; s3; s4; s5; s6; s7; s8; s9]
                         [f1; f2; f3; f4; f5; f6; f7; f8; f9] ++ tail)));
    [lia|].
  cbn [interleave]. rewrite app_nil_r.
  repeat rewrite <- app_assoc.
  assert (Hnul : forall a b, Forall (fun c => c <> NUL) a ->
                             c_str (a ++ b) = a ++ c_str b)
    by (intros; now apply c_str_app).
  repeat (rewrite Hnul by (first [now apply all_space_no_NUL
                                 | now apply field_no_NUL])).
  pose proof (c_str_tail_ok _ Ht) as Ht'.
  unfold sscanf_tdv.
  match goal with
  | |- context [conv_s 2 (s1 ++ f1 ++ ?t)] =>
      destruct (conv_s_sep 2 s1 f1 t) as [_ ->];
      [assumption | assumption | now apply tail_ok_sep | exact Hl1 |]
  end.
  rewrite (conv_llu_sep s2 f2 _ ts) by (trivial; now apply tail_ok_sep).
  match goal with
  | |- context [conv_s 12 (skip_space (s3 ++ f3 ++ ?t))] =>
      destruct (conv_s_sep 12 s3 f3 t) as [-> _];
      [assumption | assumption | now apply tail_ok_sep | exact Hl3 |]
  end.
  rewrite (conv_lf_sep s4 f4 _ hu) by (trivial; now apply tail_ok_sep).
  rewrite (conv_lf_sep s5 f5 _ sn) by (trivial; now apply tail_ok_sep).
  rewrite (conv_lf_sep s6 f6 _ cl) by (trivial; now apply tail_ok_sep).
  rewrite (conv_lf_sep s7 f7 _ li) by (trivial; now apply tail_ok_sep).
  rewrite (conv_lf_sep s8 f8 _ pr) by (trivial; now apply tail_ok_sep).
  rewrite (conv_lf_sep s9 f9 _ te) by trivial.
  now rewrite Hr.
Qed.

Lemma any_white_space_separates_witness :
  parse_line
    (interleave
       [lit "  "; lit " "; [TAB; " "%char]; lit " "; lit " "; lit " "; lit " ";
        lit " "; lit "   "]
       fields_A ++ [LF]) = Some obs_A.
Proof.
  apply any_white_space_separates.
  - vm_compute. reflexivity.
  - vm_compute. reflexivity.
  - reflexivity.
  - repeat constructor.
  - cbn [tl]. repeat constructor; discriminate.
  - reflexivity.
  - vm_compute. reflexivity.
Defined.

(** ** What an accepted line can hold *)

Lemma digit_value_range (c : ascii) : isdigit c = true -> 0 <= digit_value c <= 9.
Proof.
  unfold isdigit, digit_value. intros H. apply andb_true_iff in H.
  destruct H as [H1 H2]. apply Z.leb_le in H1, H2. lia.
Qed.

Lemma decimal_value_nonneg (ds : list ascii) :
  Forall (fun c => isdigit c = true) ds -> 0 <= decimal_value ds.
Proof.
  unfold decimal_value. intros H.
  assert (Hacc : forall acc, 0 <= acc ->
             0 <= fold_left (fun a c => 10 * a + digit_value c) ds acc).
  { induction H as [|c ds Hc _ IH]; intros acc Ha; cbn [fold_left]; trivial.
    apply IH. apply digit_value_range in Hc. lia. }
  apply Hacc. lia.
Qed.

Lemma strtoull_value_range (neg : bool) (ds : list ascii) :
  Forall (fun c => isdigit c = true) ds ->
  0 <= strtoull_value neg ds <= ULLONG_MAX.
Proof.
  intros H. apply decimal_value_nonneg in H. unfold strtoull_value, ULLONG_MAX.
  destruct (Z.ltb_spec (2 ^ 64 - 1) (decimal_value ds)); [lia|].
  destruct neg; [|lia].
  pose proof (Z.mod_pos_bound (2 ^ 64 - decimal_value ds) (2 ^ 64) ltac:(lia)). lia.
Qed.

Lemma conv_llu_range (s r : list ascii) (v : Z) :
  conv_llu s = Some (v, r) -> 0 <= v <= ULLONG_MAX.
Proof.
  unfold conv_llu, scan_llu. destruct (next_token s) as [tok rest].
  destruct (scan_sign tok) as [neg s1].
  pose proof (span_fst_forall isdigit s1) as Hd.
  destruct (span isdigit s1) as [ds s2]. simpl in Hd.
  destruct ds as [|d ds]; [discriminate|].
  intros H. injection H as <- _. now apply strtoull_value_range.
Qed.

(** X5.  What the parser accepts fits the variables it is stored in: the
    state code has one or two characters and the geohash one to twelve,
    none of them white space, so the buffers [state_code[3]] and
    [geohash[13]] are never overrun; the timestamp is a value of
    [unsigned long long] and its quotient by 1000 is a value of a 64-bit
    signed [time_t]. *)
Theorem accepted_observation_fits (line : list ascii) (o : observation) :
  parse_line line = Some o ->
  (1 <= List.length (state_code o) <= 2)%nat /\
  (1 <= List.length (geohash o) <= 12)%nat /\
  Forall (fun c => isspace c = false) (state_code o) /\
  Forall (fun c => isspace c = false) (geohash o) /\
  ~ In NUL (state_code o) /\
  0 <= timestamp o <= ULLONG_MAX /\
  0 <= timestamp o / 1000 < 2 ^ 63.
Proof.
  intros H. pose proof (parse_line_code_ok _ _ H) as [Hc Hn].
  apply parse_line_inv in H. destruct H as (_ & H & _).
  apply sscanf_tdv_inv in H.
  destruct H as (s1 & s2 & s3 & s4 & s5 & s6 & s7 & s8 & s9
                 & E1 & E2 & E3 & _).
  apply conv_s_token in E1, E3. destruct E1 as (_ & _ & _ & Hsp1).
  destruct E3 as (Hle & _ & Hge & Hsp3).
  apply conv_llu_range in E2. specialize (Hge ltac:(lia)).
  repeat split; trivial; try lia.
  - apply Z.div_pos; lia.
  - apply Z.div_lt_upper_bound; unfold ULLONG_MAX in E2; lia.
Qed.

Lemma accepted_observation_fits_witness :
  (1 <= List.length (geohash obs_A) <= 12)%nat.
Proof.
  exact (proj1 (proj2 (accepted_observation_fits scenario_A obs_A
                         parse_scenario_A))).
Defined.

(** ** A geohash of more than twelve characters *)

Lemma starts_number_false (c : ascii) :
  starts_number c = false ->
  isdigit c = false /\ Ascii.eqb c "+" = false /\ Ascii.eqb c "-" = false /\
  Ascii.eqb c "." = false /\ Ascii.eqb (tolower c) "i" = false /\
  Ascii.eqb (tolower c) "n" = false /\ Ascii.eqb (tolower c) "0" = false.
Proof.
  destruct c as [b0 b1 b2 b3 b4 b5 b6 b7].
  destruct b0, b1, b2, b3, b4, b5, b6, b7; vm_compute; intuition congruence.
Qed.

Lemma scan_lf_bad_start (c : ascii) (s : list ascii) :
  starts_number c = false -> scan_lf (c :: s) = None.
Proof.
  intros H. apply starts_number_false in H.
  destruct H as (Hd & Hp & Hm & Hdot & Hi & Hn & H0).
  unfold scan_lf, scan_sign. rewrite Hm, Hp.
  unfold scan_unsigned_lf. cbn [lit list_ascii_of_string strip_ci].
  rewrite Hi, Hn, H0.
  unfold scan_decimal, scan_mantissa. cbn [span]. rewrite Hd, Hdot. reflexivity.
Qed.

(** X6.  A geohash of more than twelve characters is not cut to twelve:
    [%12s] leaves the other characters in the input, where the humidity
    is expected, and the line is rejected whenever the thirteenth
    character cannot start a number (any letter but i and n, for
    instance). *)
Theorem long_geohash_rejected
  (f1 f2 g rest : list ascii) (ts : Z) (c13 : ascii) :
  field_ok f1 = true -> (List.length f1 <= 2)%nat ->
  field_ok f2 = true -> whole (scan_llu f2) = Some ts ->
  field_ok g = true -> nth_error g 12 = Some c13 ->
  starts_number c13 = false ->
  parse_line (f1 ++ TAB :: f2 ++ TAB :: g ++ TAB :: rest) = None.
Proof.
  intros H1 Hl1 H2 Hts Hg Hc Hbad. unfold parse_line.
  destruct (LINE_BUFFER - 1 <=? strlen _); trivial.
  rewrite c_str_app by now apply field_no_NUL.
  change (c_str (TAB :: f2 ++ TAB :: g ++ TAB :: rest))
    with (TAB :: c_str (f2 ++ TAB :: g ++ TAB :: rest)).
  rewrite c_str_app by now apply field_no_NUL.
  change (c_str (TAB :: g ++ TAB :: rest)) with (TAB :: c_str (g ++ TAB :: rest)).
  rewrite c_str_app by now apply field_no_NUL.
  change (c_str (TAB :: rest)) with (TAB :: c_str rest).
  unfold sscanf_tdv.
  rewrite conv_s_first by (trivial; apply tail_ok_TAB).
  rewrite firstn_all2, skipn_all2 by exact Hl1. cbn [app].
  rewrite (conv_llu_field f2 _ ts) by (trivial; apply tail_ok_TAB).
  unfold conv_s at 1. rewrite next_token_after_TAB by (trivial; apply tail_ok_TAB).
  destruct g as [|g0 g'] eqn:Eg; [discriminate|]. rewrite <- Eg in *.
  assert (Hsplit : skipn 12 g = c13 :: skipn 13 g).
  { clear - Hc. revert Hc. generalize 12%nat as n. intros n. revert g.
    induction n as [|n IH]; intros [|x g] H; simpl in *; try discriminate.
    - now injection H as ->.
    - now apply IH. }
  assert (Hf' : field_ok (skipn 12 g) = true).
  { rewrite Hsplit. unfold field_ok.
    apply forallb_forall. intros x Hx.
    apply field_ok_spec in Hg. destruct Hg as [_ Hg].
    rewrite Forall_forall in Hg. apply Hg.
    rewrite <- Hsplit in Hx. rewrite <- (firstn_skipn 12 g).
    apply in_or_app. now right. }
  unfold conv_lf. rewrite skip_space_field by exact Hf'.
  rewrite next_token_field by (trivial; apply tail_ok_TAB).
  rewrite Hsplit, scan_lf_bad_start by exact Hbad. reflexivity.
Qed.

Lemma long_geohash_rejected_witness :
  parse_line
    (lit "CA" ++ TAB :: lit "1428300000000" ++ TAB :: lit "9prcjqk3yc80z"
     ++ TAB :: lit "93.0") = None.
Proof.
  apply (long_geohash_rejected (lit "CA") (lit "1428300000000")
           (lit "9prcjqk3yc80z") (lit "93.0") 1428300000000 "z"%char);
    reflexivity || (simpl; lia).
Defined.

(** ** One turn of the loop and the slots of the table *)

Lemma shift_search_add (k m : nat) (r : search) :
  shift_search k (shift_search m r) = shift_search (k + m) r.
Proof. destruct r; simpl; trivial; now rewrite Nat.add_assoc. Qed.

Lemma find_state_shift (states : table) (c : cstring) (k : nat) :
  find_state states c k = shift_search k (find_state states c 0).
Proof.
  revert k. induction states as [|[y|] rest IH]; intros k; simpl; trivial.
  - destruct (strcmp (code y) c =? 0); simpl.
    + f_equal. lia.
    + rewrite (IH (S k)), (IH 1%nat), shift_search_add. f_equal. lia.
  - f_equal. lia.
Qed.

Lemma find_state_slot (states : table) (c : cstring) :
  forall i : nat,
    (forall info, find_state states c 0 = Found i info ->
                  nth_error states i = Some (Some info) /\
                  strcmp (code info) c = 0) /\
    (find_state states c 0 = Vacant i -> nth_error states i = Some None).
Proof.
  induction states as [|[y|] rest IH]; intros i; simpl.
  - split; [intros info H | intros H]; discriminate.
  - destruct (Z.eqb_spec (strcmp (code y) c) 0) as [E|E].
    + split; [|discriminate]. intros info H. injection H as <- <-. now split.
    + rewrite find_state_shift.
      destruct (find_state rest c 0) as [j x|j|] eqn:Er; simpl.
      * split; [|discriminate]. intros info H. injection H as <- <-.
        apply (proj1 (IH j)). reflexivity.
      * split; [discriminate|]. intros H. injection H as <-.
        apply (proj2 (IH j)). reflexivity.
      * split; [intros info H | intros H]; discriminate.
  - split; [discriminate|]. intros H. injection H as <-. reflexivity.
Qed.

Lemma nth_error_store (states : table) (i j : nat) (p : option climate_info) :
  nth_error (store states i p) j
  = if Nat.eqb j i then
      match nth_error states i with Some _ => Some p | None => None end
    else nth_error states j.
Proof.
  revert i j. induction states as [|s rest IH]; intros [|i] [|j]; simpl; trivial.
  now destruct (Nat.eqb j i).
Qed.


(** X7.  A turn of the reading loop touches at most one slot of the
    table, whatever the table holds: the number of slots is kept, there
    is an index outside of which every slot is as before, an accumulator
    stays in its slot with its code, and a turn that folds nothing
    leaves the table as it was. *)
Theorem process_line_touches_one_slot
  (h h' : heap) (states states' : table) (line : list ascii) (out : outcome) :
  process_line h states line = (out, h', states') ->
  List.length states' = List.length states /\
  (exists i, forall j, j <> i -> nth_error states' j = nth_error states j) /\
  (forall j info,
      nth_error states j = Some (Some info) ->
      exists info', nth_error states' j = Some (Some info') /\
                    code info' = code info) /\
  (out <> Folded -> states' = states).
Proof.
  unfold process_line. destruct (parse_line line) as [o|].
  2:{ intros H. injection H as <- <- <-. repeat split; trivial.
      - now exists 0%nat.
      - intros j info Hj. now exists info. }
  destruct (find_state states (state_code o) 0) as [i info|i|] eqn:Hf.
  - intros H. injection H as <- <- <-.
    destruct (proj1 (find_state_slot states (state_code o) i) info Hf) as [Hi _].
    repeat split.
    + apply store_length.
    + exists i. intros j Hj. rewrite nth_error_store.
      destruct (Nat.eqb_spec j i); [contradiction | reflexivity].
    + intros j x Hj. rewrite nth_error_store.
      destruct (Nat.eqb_spec j i) as [->|Hne].
      * rewrite Hi in *. injection Hj as <-. now eexists.
      * now exists x.
    + intros H. now contradiction H.
  - pose proof (proj2 (find_state_slot states (state_code o) i) Hf) as Hi.
    destruct (calloc h) as [[|] h1]; intros H; injection H as <- <- <-.
    + repeat split.
      * apply store_length.
      * exists i. intros j Hj. rewrite nth_error_store.
        destruct (Nat.eqb_spec j i); [contradiction | reflexivity].
      * intros j x Hj. rewrite nth_error_store.
        destruct (Nat.eqb_spec j i) as [->|Hne].
        -- rewrite Hi in Hj. discriminate.
        -- now exists x.
      * intros H. now contradiction H.
    + repeat split; trivial.
      * now exists 0%nat.
      * intros j x Hj. now exists x.
  - intros H. injection H as <- <- <-. repeat split; trivial.
    + now exists 0%nat.
    + intros j x Hj. now exists x.
Qed.

Lemma process_line_touches_one_slot_witness :
  List.length (snd (process_line [] full_table scenario_A))
  = List.length full_table.
Proof.
  destruct (process_line [] full_table scenario_A) as [[out h'] states'] eqn:E.
  exact (proj1 (process_line_touches_one_slot _ _ _ _ _ _ E)).
Defined.



(** ** What an accumulator holds *)

Lemma folded_observation_code (line : list ascii) (out : outcome) :
  map state_code (folded_observation line out) = folded_code line out.
Proof.
  unfold folded_observation, folded_code.
  destruct out; trivial. now destruct (parse_line line).
Qed.

Lemma history_reachable (obs : list observation) (h : heap) (states : table) :
  history obs h states ->
  exists n, reachable n (map state_code obs) h states.
Proof.
  induction 1 as [h|obs h h' states states' line out _ [n IH] Hp].
  - exists 0%nat. constructor.
  - exists (S n). rewrite map_app, folded_observation_code.
    eapply reach_line; eauto.
Qed.

Lemma of_state_snoc (c : cstring) (obs : list observation) (o : observation) :
  filter (of_state c) (obs ++ [o])
  = if strcmp c (state_code o) =? 0
    then filter (of_state c) obs ++ [o] else filter (of_state c) obs.
Proof.
  rewrite filter_app. simpl. unfold of_state at 2.
  destruct (strcmp c (state_code o) =? 0); trivial. apply app_nil_r.
Qed.

Lemma NoDup_codes_apart (pre post : list climate_info) (x y : climate_info) :
  NoDup (map code (pre ++ x :: post)) -> In y (pre ++ post) -> code y <> code x.
Proof.
  rewrite map_app. simpl. intros H Hy E. apply NoDup_remove_2 in H.
  apply H. rewrite <- map_app, <- E. now apply in_map.
Qed.

Lemma filter_none {A : Type} (f : A -> bool) (l : list A) :
  (forall x, In x l -> f x = false) -> filter f l = [].
Proof.
  induction l as [|x l IH]; intros H; simpl; trivial.
  rewrite (H x) by now left. apply IH. intros y Hy. apply H. now right.
Qed.

(** X9.  In every table the program builds, an accumulator is exactly
    the fold, from the freshly created entry of its code, of the
    observations folded so far that carry its code, in the order of
    their lines: lines for other states, rejected lines and failed
    allocations leave no trace in it. *)
Theorem accumulator_is_fold_of_its_observations
  (obs : list observation) (h : heap) (states : table) (info : climate_info) :
  history obs h states ->
  In (Some info) states ->
  info = fold_observations (new_info (code info))
           (filter (of_state (code info)) obs).
Proof.
  intros Hh. revert info.
  induction Hh as [h|obs h h' states states' line out Hh IH Hp]; intros info Hin.
  - apply repeat_spec in Hin. discriminate.
  - destruct (history_reachable _ _ _ Hh) as [n Hr].
    pose proof (reachable_inv _ _ _ _ Hr) as (infos & k & E & _ & Hc & Hok & _).
    pose proof (first_sightings_NoDup (map state_code obs)) as Hnd.
    rewrite <- Hc in Hnd. subst states.
    assert (Hlog : forall o', In o' obs -> code_ok (state_code o')).
    { intros o' Ho. rewrite Forall_forall in Hok. apply Hok.
      apply first_sightings_In. now apply in_map. }
    assert (Hinfo : forall x, In x infos -> code_ok (code x)).
    { intros x Hx. rewrite Forall_forall in Hok. apply Hok.
      rewrite <- Hc. now apply in_map. }
    assert (IH' : forall x, In x infos ->
                x = fold_observations (new_info (code x))
                      (filter (of_state (code x)) obs)).
    { intros x Hx. apply IH. apply in_or_app. left. now apply in_map. }
    apply process_line_cases in Hp.
    destruct Hp as [(-> & -> & -> & _)
                   |[(o & pre & info0 & post & Hparse & -> & Hz & -> & -> & ->)
                   |[(o & k' & Hparse & -> & Hall & Hcal & -> & ->)
                   |(o & k' & Hparse & -> & Hall & Hcal & -> & ->)]]].
    + unfold folded_observation. rewrite app_nil_r. now apply IH.
    + unfold folded_observation. rewrite Hparse.
      apply in_prefix_table in Hin. rewrite of_state_snoc.
      pose proof (parse_line_code_ok _ _ Hparse) as Hco.
      assert (E0 : code info0 = state_code o).
      { apply strcmp_eq; trivial.
        - apply (Hinfo info0). apply in_or_app. right. now left.
        - apply Hco. }
      apply in_app_or in Hin. destruct Hin as [Hin|[<-|Hin]].
      * assert (Hne : code info <> code info0)
          by (eapply NoDup_codes_apart; eauto; apply in_or_app; now left).
        destruct (Z.eqb_spec (strcmp (code info) (state_code o)) 0) as [Ez|Ez].
        -- exfalso. apply Hne. rewrite E0. apply strcmp_eq; trivial.
           ++ apply (Hinfo info). apply in_or_app. now left.
           ++ apply Hco.
        -- apply IH'. apply in_or_app. now left.
      * fields. rewrite Hz. cbn [Z.eqb].
        rewrite fold_observations_app. cbn [fold_observations fold_left].
        f_equal. apply IH'. apply in_or_app. right. now left.
      * assert (Hne : code info <> code info0)
          by (eapply NoDup_codes_apart; eauto; apply in_or_app; now right).
        destruct (Z.eqb_spec (strcmp (code info) (state_code o)) 0) as [Ez|Ez].
        -- exfalso. apply Hne. rewrite E0. apply strcmp_eq; trivial.
           ++ apply (Hinfo info). apply in_or_app. right. now right.
           ++ apply Hco.
        -- apply IH'. apply in_or_app. right. now right.
    + unfold folded_observation. rewrite Hparse.
      apply in_prefix_table in Hin. rewrite of_state_snoc.
      pose proof (parse_line_code_ok _ _ Hparse) as Hco.
      apply in_app_or in Hin. destruct Hin as [Hin|[<-|[]]].
      * rewrite Forall_forall in Hall. specialize (Hall info Hin).
        destruct (Z.eqb_spec (strcmp (code info) (state_code o)) 0);
          [contradiction|]. now apply IH'.
      * fields. rewrite strncpy_code_ok by exact Hco.
        rewrite strcmp_refl. cbn [Z.eqb].
        assert (Hnone : filter (of_state (state_code o)) obs = []).
        { apply filter_none. intros o' Ho'. unfold of_state.
          destruct (Z.eqb_spec (strcmp (state_code o) (state_code o')) 0)
            as [Ez|Ez]; trivial.
          exfalso. apply strcmp_eq in Ez; [|apply Hco | now apply (Hlog o')].
          assert (Hin' : In (state_code o) (map code infos)).
          { rewrite Hc. apply first_sightings_In. rewrite Ez. now apply in_map. }
          apply in_map_iff in Hin'. destruct Hin' as (x & Hx & Hxin).
          rewrite Forall_forall in Hall. apply (Hall x Hxin).
          rewrite Hx. apply strcmp_refl. }
        rewrite Hnone. reflexivity.
    + unfold folded_observation. rewrite app_nil_r. now apply IH.
Qed.

Lemma history_after_three_lines :
  history [obs_A; obs_TN; obs_A] []
    (store
       (store (repeat None NUM_STATES) 0
          (Some (update_info (update_info (new_info (lit "CA")) obs_A) obs_A)))
       1 (Some (update_info (new_info (lit "TN")) obs_TN))).
Proof.
  refine (history_line [obs_A; obs_TN] [] [] _ _ scenario_A Folded _ _).
  - refine (history_line [obs_A] [] [] _ _ line_TN Folded _ _).
    + refine (history_line [] [] [] _ _ scenario_A Folded (history_start []) _).
      vm_compute. reflexivity.
    + vm_compute. reflexivity.
  - vm_compute. reflexivity.
Defined.

Lemma accumulator_is_fold_of_its_observations_witness :
  update_info (update_info (new_info (lit "CA")) obs_A) obs_A
  = fold_observations (new_info (lit "CA")) [obs_A; obs_A].
Proof.
  refine (accumulator_is_fold_of_its_observations _ [] _ _
            history_after_three_lines _).
  left. reflexivity.
Defined.

(** The runs of [analyze_file] and of the loop of [main] extend the
    history of the table. *)
Lemma analyze_lines_history (lines : list (list ascii)) :
  forall (obs : list observation) (h : heap) (states : table) (lp : Z),
    history obs h states ->
    exists obs',
      history (obs ++ obs')
        (snd (fst (fst (analyze_lines lines h states lp))))
        (snd (fst (analyze_lines lines h states lp))).
Proof.
  induction lines as [|line lines IH]; intros obs h states lp Hh.
  - exists []. rewrite app_nil_r. exact Hh.
  - simpl. destruct (process_line h states line) as [[out h1] states1] eqn:Hp.
    pose proof (history_line _ _ _ _ _ _ _ Hh Hp) as Hh1.
    destruct out.
    + destruct (IH _ _ _ lp Hh1) as [obs' H']. rewrite <- app_assoc in H'. eauto.
    + destruct (IH _ _ _ (wrap_int (lp + 1)) Hh1) as [obs' H'].
      rewrite <- app_assoc in H'. eauto.
    + simpl. eauto.
Qed.

Lemma process_files_history (fs : filesystem) (args : list cstring) :
  forall (obs : list observation) (h : heap) (states : table) (fp : Z),
    history obs h states ->
    exists obs',
      history (obs ++ obs')
        (fst (fst (fst (process_files fs args h states fp))))
        (final_table (process_files fs args h states fp)).
Proof.
  induction args as [|path args IH]; intros obs h states fp Hh.
  - exists []. rewrite app_nil_r. exact Hh.
  - simpl. destruct (fs path) as [f|].
    + assert (Ha : exists obs1,
                 history (obs ++ obs1)
                   (snd (fst (fst (analyze_file (Some f) h states))))
                   (snd (fst (analyze_file (Some f) h states)))).
      { unfold analyze_file. destruct states as [|s states].
        - exists []. rewrite app_nil_r. exact Hh.
        - apply analyze_lines_history. exact Hh. }
      destruct (analyze_file (Some f) h states) as [[[rc h1] states1] ev1].
      destruct Ha as [obs1 Ha]. simpl in Ha.
      destruct (IH _ _ _ (if rc =? 0 then fp + 1 else fp) Ha) as [obs2 H2].
      destruct (process_files fs args h1 states1 _) as [[[h2 states2] fp2] ev2].
      simpl in *. rewrite <- app_assoc in H2. eauto.
    + destruct (IH _ _ _ fp Hh) as [obs2 H2].
      destruct (process_files fs args h states fp) as [[[h2 states2] fp2] ev2].
      simpl in *. eauto.
Qed.

(** ** Counts and sums *)

Lemma wrap_ulong_add_l (a b : Z) : wrap_ulong (wrap_ulong a + b) = wrap_ulong (a + b).
Proof. unfold wrap_ulong. apply Zplus_mod_idemp_l. Qed.



(** X10.  Folding a sequence of observations into an accumulator adds
    its length to [num_records], the number of its observations with
    [lightning > 0] to [lightning_strikes] and the number of those with
    [snow > 0] to [snow_records], all modulo 2^64; it adds the
    temperatures, the humidities and the cloud covers to the three sums,
    one after the other from the left; the code never changes. *)
Theorem fold_observations_totals (info : climate_info) (os : list observation) :
  valid_info info ->
  let final := fold_observations info os in
  code final = code info /\
  num_records final
  = wrap_ulong (num_records info + Z.of_nat (List.length os)) /\
  lightning_strikes final
  = wrap_ulong (lightning_strikes info
                + Z.of_nat (List.length
                              (filter (fun o => Fp.lt (Fp.of_Z 0) (lightning o)) os))) /\
  snow_records final
  = wrap_ulong (snow_records info
                + Z.of_nat (List.length
                              (filter (fun o => Fp.lt (Fp.of_Z 0) (snow o)) os))) /\
  sum_temperature final
  = fold_left Fp.add (map temperature os) (sum_temperature info) /\
  sum_humidity final = fold_left Fp.add (map humidity os) (sum_humidity info) /\
  sum_cloudcover final
  = fold_left Fp.add (map cloudcover os) (sum_cloudcover info).
Proof.
  intros Hv final. subst final. revert info Hv.
  induction os as [|o os IH]; intros info (Hn & Hl & Hs).
  - cbn [fold_observations fold_left List.length filter map].
    rewrite !Z.add_0_r, !wrap_ulong_small by assumption. repeat split.
  - rewrite fold_observations_cons.
    assert (Hv' : valid_info (update_info info o))
      by (repeat split; fields; apply wrap_ulong_range).
    destruct (IH (update_info info o) Hv') as (E1 & E2 & E3 & E4 & E5 & E6 & E7).
    rewrite E1, E2, E3, E4, E5, E6, E7. fields.
    cbn [List.length filter map fold_left].
    rewrite !wrap_ulong_add_l. repeat split.
    + f_equal. lia.
    + destruct (Fp.lt (Fp.of_Z 0) (lightning o)); cbn [List.length]; f_equal; lia.
    + destruct (Fp.lt (Fp.of_Z 0) (snow o)); cbn [List.length]; f_equal; lia.
Qed.

Lemma fold_observations_totals_witness :
  num_records (fold_observations (new_info (lit "TN")) [obs_TN; obs_TN; obs_TN]) = 3
  /\ lightning_strikes
       (fold_observations (new_info (lit "TN")) [obs_TN; obs_TN; obs_TN]) = 3.
Proof.
  assert (Hv : valid_info (new_info (lit "TN"))).
  { unfold valid_info, ulong_range, ULONG_MAX. simpl. lia. }
  destruct (fold_observations_totals (new_info (lit "TN"))
              [obs_TN; obs_TN; obs_TN] Hv) as (_ & E2 & E3 & _).
  split; [rewrite E2 | rewrite E3]; vm_compute; reflexivity.
Defined.

(** ** Every folded line is counted once *)

Lemma total_records_prefix (infos : list climate_info) (k : nat) :
  total_records (map Some infos ++ repeat None k)
  = fold_right Z.add 0 (map num_records infos).
Proof. unfold total_records. now rewrite present_prefix. Qed.

Lemma sum_records_app (a b : list climate_info) :
  fold_right Z.add 0 (map num_records (a ++ b))
  = fold_right Z.add 0 (map num_records a)
    + fold_right Z.add 0 (map num_records b).
Proof. induction a as [|x a IH]; simpl fold_right; simpl map; [lia|]. 
  cbn [app map fold_right]. rewrite IH. lia. Qed.

Lemma sum_records_nonneg (l : list climate_info) :
  Forall (fun x => 0 <= num_records x) l ->
  0 <= fold_right Z.add 0 (map num_records l).
Proof.
  induction 1 as [|x l Hx _ IH]; cbn [map fold_right]; lia.
Qed.

(** X11.  As long as no more than [ULONG_MAX] lines were folded, the
    record counts of the table add up to the number of lines folded since
    the start: every folded line is counted in one accumulator, once,
    and nothing else is. *)
Theorem record_counts_add_up
  (obs : list observation) (h : heap) (states : table) :
  history obs h states ->
  Z.of_nat (List.length obs) <= ULONG_MAX ->
  total_records states = Z.of_nat (List.length obs) /\
  forall info, In (Some info) states -> 0 <= num_records info.
Proof.
  intros Hh. 
  induction Hh as [h|obs h h' states states' line out Hh IH Hp]; intros Hb.
  - split.
    + unfold total_records, present.
      induction NUM_STATES; simpl; trivial.
    + intros info Hin. apply repeat_spec in Hin. discriminate.
  - destruct (history_reachable _ _ _ Hh) as [n Hr].
    pose proof (reachable_inv _ _ _ _ Hr) as (infos & k & E & _).
    subst states. rewrite length_app in Hb.
    specialize (IH ltac:(lia)). destruct IH as [Ht Hpos].
    rewrite total_records_prefix in Ht.
    assert (Hpos' : Forall (fun x => 0 <= num_records x) infos).
    { apply Forall_forall. intros x Hx. apply Hpos. apply in_or_app. left.
      now apply in_map. }
    apply process_line_cases in Hp.
    destruct Hp as [(-> & -> & -> & _)
                   |[(o & pre & info0 & post & Hparse & -> & Hz & -> & -> & ->)
                   |[(o & k' & Hparse & -> & Hall & Hcal & -> & ->)
                   |(o & k' & Hparse & -> & Hall & Hcal & -> & ->)]]].
    + unfold folded_observation. rewrite app_nil_r, total_records_prefix.
      split; [exact Ht | exact Hpos].
    + unfold folded_observation in *. rewrite Hparse in *.
      rewrite length_app. cbn [List.length] in *.
      rewrite total_records_prefix, sum_records_app in *.
      cbn [map fold_right] in *.
      apply Forall_app in Hpos'. destruct Hpos' as [Hpre Hpost].
      inversion Hpost as [|? ? H0 Hpost']; subst.
      pose proof (sum_records_nonneg _ Hpre).
      pose proof (sum_records_nonneg _ Hpost').
      assert (Hw : num_records (update_info info0 o) = num_records info0 + 1).
      { fields. apply wrap_ulong_small. lia. }
      split.
      * rewrite Hw. lia.
      * intros info Hin. apply in_prefix_table in Hin.
        apply in_app_or in Hin. destruct Hin as [Hin|[<-|Hin]].
        -- rewrite Forall_forall in Hpre. now apply Hpre.
        -- rewrite Hw. lia.
        -- rewrite Forall_forall in Hpost'. now apply Hpost'.
    + unfold folded_observation in *. rewrite Hparse in *.
      rewrite length_app. cbn [List.length] in *.
      rewrite total_records_prefix, sum_records_app in *.
      cbn [map fold_right]. fields.
      change (wrap_ulong (0 + 1)) with 1. split.
      * lia.
      * intros info Hin. apply in_prefix_table in Hin.
        apply in_app_or in Hin. destruct Hin as [Hin|[<-|[]]].
        -- rewrite Forall_forall in Hpos'. now apply Hpos'.
        -- fields. change (wrap_ulong (0 + 1)) with 1. lia.
    + unfold folded_observation. rewrite app_nil_r, total_records_prefix.
      split; [exact Ht | exact Hpos].
Qed.

Lemma record_counts_add_up_witness :
  total_records
    (store
       (store (repeat None NUM_STATES) 0
          (Some (update_info (update_info (new_info (lit "CA")) obs_A) obs_A)))
       1 (Some (update_info (new_info (lit "TN")) obs_TN)))
  = 3.
Proof.
  refine (proj1 (record_counts_add_up _ [] _ history_after_three_lines _)).
  vm_compute. discriminate.
Defined.

(** ** The extrema *)

Lemma fp_lt_above (m t' t : Fp.fp) :
  Fp.lt m t' = true -> Fp.lt m t = false -> t <> Fp.NaN -> Fp.lt t' t = false.
Proof.
  destruct m as [a| | |], t' as [a'| | |], t as [b| | |];
    unfold Fp.lt; try discriminate; try reflexivity; try congruence.
  intros H1 H2 _.
  destruct (Qcompare a a') eqn:E1; try discriminate.
  destruct (Qcompare a' b) eqn:E2; trivial.
  pose proof (Qlt_trans _ _ _ (proj2 (Qlt_alt _ _) E1) (proj2 (Qlt_alt _ _) E2))
    as E3.
  now rewrite (proj1 (Qlt_alt _ _) E3) in H2.
Qed.

Lemma fp_lt_below (m t' t : Fp.fp) :
  Fp.lt t' m = true -> Fp.lt t m = false -> t <> Fp.NaN -> Fp.lt t t' = false.
Proof.
  destruct m as [a| | |], t' as [a'| | |], t as [b| | |];
    unfold Fp.lt; try discriminate; try reflexivity; try congruence.
  intros H1 H2 _.
  destruct (Qcompare a' a) eqn:E1; try discriminate.
  destruct (Qcompare b a') eqn:E2; trivial.
  pose proof (Qlt_trans _ _ _ (proj2 (Qlt_alt _ _) E2) (proj2 (Qlt_alt _ _) E1))
    as E3.
  now rewrite (proj1 (Qlt_alt _ _) E3) in H2.
Qed.

Lemma fold_max_covers (t : Fp.fp) (os : list observation) :
  t <> Fp.NaN ->
  forall info,
    Fp.lt (max_temp info) t = false ->
    Fp.lt (max_temp (fold_observations info os)) t = false.
Proof.
  intros Ht. induction os as [|o os IH]; intros info H; trivial.
  rewrite fold_observations_cons. apply IH. fields.
  destruct (Fp.lt (max_temp info) (temperature o)) eqn:E; trivial.
  eapply fp_lt_above; eauto.
Qed.

Lemma fold_min_covers (t : Fp.fp) (os : list observation) :
  t <> Fp.NaN ->
  forall info,
    Fp.lt t (min_temp info) = false ->
    Fp.lt t (min_temp (fold_observations info os)) = false.
Proof.
  intros Ht. induction os as [|o os IH]; intros info H; trivial.
  rewrite fold_observations_cons. apply IH. fields.
  destruct (Fp.lt (temperature o) (min_temp info)) eqn:E; trivial.
  eapply fp_lt_below; eauto.
Qed.

(** X12.  After a sequence of observations is folded into an
    accumulator, no temperature of the sequence that is a number is above
    [max_temp] or below [min_temp].  Each extremum is either the one the
    accumulator started with, with its time, or the temperature of one of
    the observations, with the time of that observation; it is the
    latter as soon as one observation is strictly beyond the starting
    value. *)
Theorem extrema_bound_the_temperatures
  (info : climate_info) (os : list observation) :
  let final := fold_observations info os in
  (forall o, In o os -> temperature o <> Fp.NaN ->
             Fp.lt (max_temp final) (temperature o) = false /\
             Fp.lt (temperature o) (min_temp final) = false) /\
  ((max_temp final = max_temp info /\ max_temp_time final = max_temp_time info) \/
   exists o, In o os /\ max_temp final = temperature o /\
             max_temp_time final = timestamp o / 1000) /\
  ((min_temp final = min_temp info /\ min_temp_time final = min_temp_time info) \/
   exists o, In o os /\ min_temp final = temperature o /\
             min_temp_time final = timestamp o / 1000) /\
  (forall o, In o os -> Fp.lt (max_temp info) (temperature o) = true ->
             exists o', In o' os /\ max_temp final = temperature o' /\
                        max_temp_time final = timestamp o' / 1000) /\
  (forall o, In o os -> Fp.lt (temperature o) (min_temp info) = true ->
             exists o', In o' os /\ min_temp final = temperature o' /\
                        min_temp_time final = timestamp o' / 1000).
Proof.
  intros final. subst final.
  assert (Hcover : forall os info o, In o os -> temperature o <> Fp.NaN ->
             Fp.lt (max_temp (fold_observations info os)) (temperature o) = false /\
             Fp.lt (temperature o) (min_temp (fold_observations info os)) = false).
  { clear. induction os as [|x os IH]; intros info o Hin Hn; [destruct Hin|].
    destruct Hin as [<-|Hin].
    - rewrite fold_observations_cons. split.
      + apply fold_max_covers; trivial. fields.
        destruct (Fp.lt (max_temp info) (temperature x)) eqn:E; trivial.
        apply fp_lt_irrefl.
      + apply fold_min_covers; trivial. fields.
        destruct (Fp.lt (temperature x) (min_temp info)) eqn:E; trivial.
        apply fp_lt_irrefl.
    - rewrite fold_observations_cons. now apply IH. }
  assert (Hmax : forall os info,
             (max_temp (fold_observations info os) = max_temp info /\
              max_temp_time (fold_observations info os) = max_temp_time info) \/
             exists o, In o os /\
                       max_temp (fold_observations info os) = temperature o /\
                       max_temp_time (fold_observations info os)
                       = timestamp o / 1000).
  { clear. induction os as [|x os IH]; intros info; [now left|].
    rewrite fold_observations_cons.
    destruct (IH (update_info info x)) as [[E1 E2]|(o & Hin & E1 & E2)].
    - rewrite E1, E2. fields.
      destruct (Fp.lt (max_temp info) (temperature x)); [right | now left].
      exists x. split; [now left | now split].
    - right. exists o. split; [now right | now split]. }
  assert (Hmin : forall os info,
             (min_temp (fold_observations info os) = min_temp info /\
              min_temp_time (fold_observations info os) = min_temp_time info) \/
             exists o, In o os /\
                       min_temp (fold_observations info os) = temperature o /\
                       min_temp_time (fold_observations info os)
                       = timestamp o / 1000).
  { clear. induction os as [|x os IH]; intros info; [now left|].
    rewrite fold_observations_cons.
    destruct (IH (update_info info x)) as [[E1 E2]|(o & Hin & E1 & E2)].
    - rewrite E1, E2. fields.
      destruct (Fp.lt (temperature x) (min_temp info)); [right | now left].
      exists x. split; [now left | now split].
    - right. exists o. split; [now right | now split]. }
  split; [apply Hcover|]. split; [apply Hmax|]. split; [apply Hmin|]. split.
  - intros o Hin Hlt. destruct (Hmax os info) as [[E _]|H]; trivial.
    assert (Hn : temperature o <> Fp.NaN)
      by (intros En; rewrite En in Hlt; now destruct (max_temp info)).
    destruct (Hcover os info o Hin Hn) as [Hc _]. rewrite E in Hc. congruence.
  - intros o Hin Hlt. destruct (Hmin os info) as [[E _]|H]; trivial.
    assert (Hn : temperature o <> Fp.NaN)
      by (intros En; rewrite En in Hlt; discriminate).
    destruct (Hcover os info o Hin Hn) as [_ Hc]. rewrite E in Hc. congruence.
Qed.

Lemma extrema_bound_the_temperatures_witness :
  exists o', In o' [obs_A; obs_TN] /\
             max_temp (fold_observations (new_info (lit "XX")) [obs_A; obs_TN])
             = temperature o'.
Proof.
  destruct (extrema_bound_the_temperatures (new_info (lit "XX")) [obs_A; obs_TN])
    as (_ & _ & _ & H & _).
  destruct (H obs_A) as (o' & Hin & E & _).
  - left. reflexivity.
  - vm_compute. reflexivity.
  - exists o'. split; [exact Hin | exact E].
Defined.

(** ** A temperature that is not a number *)

Lemma fp_add_NaN_l (x : Fp.fp) : Fp.add Fp.NaN x = Fp.NaN.
Proof. reflexivity. Qed.

Lemma fp_add_NaN_r (x : Fp.fp) : Fp.add x Fp.NaN = Fp.NaN.
Proof. now destruct x. Qed.

(** X13.  Nothing in the program tests for NaN.  An observation whose
    temperature is NaN passes the temperature test of the validation; it
    is counted, it leaves both extrema and their times as they were, and
    it makes [sum_temperature] NaN for good: whatever is folded
    afterwards, the average temperature of the report is NaN. *)
Theorem nan_temperature_spoils_the_sum
  (info : climate_info) (o : observation) (os : list observation) :
  temperature o = Fp.NaN ->
  let final := fold_observations (update_info info o) os in
  Fp.lt (temperature o) (Fp.of_Z 0) = false /\
  num_records (update_info info o) = wrap_ulong (num_records info + 1) /\
  max_temp (update_info info o) = max_temp info /\
  max_temp_time (update_info info o) = max_temp_time info /\
  min_temp (update_info info o) = min_temp info /\
  min_temp_time (update_info info o) = min_temp_time info /\
  sum_temperature final = Fp.NaN /\
  fahrenheit (Fp.div (sum_temperature final) (Fp.of_Z (num_records final)))
  = Fp.NaN.
Proof.
  intros Hn final.
  assert (Hsum : sum_temperature final = Fp.NaN).
  { subst final.
    assert (H0 : sum_temperature (update_info info o) = Fp.NaN)
      by (fields; rewrite Hn; apply fp_add_NaN_r).
    revert H0. generalize (update_info info o) as a.
    induction os as [|x os IH]; intros a Ha; trivial.
    rewrite fold_observations_cons. apply IH. fields. now rewrite Ha. }
  rewrite Hsum. fields. rewrite Hn.
  assert (H1 : Fp.lt (max_temp info) Fp.NaN = false) by now destruct (max_temp info).
  rewrite H1. repeat split.
Qed.

Lemma nan_temperature_spoils_the_sum_witness :
  sum_temperature
    (fold_observations
       (update_info (new_info (lit "CA"))
          {| state_code := lit "CA"; timestamp := 1; geohash := lit "g";
             humidity := Fp.Fin 1; snow := Fp.Fin 0; cloudcover := Fp.Fin 1;
             lightning := Fp.Fin 0; pressure := Fp.Fin 1;
             temperature := Fp.NaN |})
       [obs_A; obs_A_later]) = Fp.NaN.
Proof.
  refine (proj1 (proj2 (proj2 (proj2 (proj2 (proj2 (proj2
            (nan_temperature_spoils_the_sum _ _ _ _)))))))).
  reflexivity.
Defined.

(** ** Every file that is opened is closed *)

Lemma no_file_event_in_analyze_lines (lines : list (list ascii)) :
  forall (h : heap) (states : table) (lp : Z),
    filter is_file_event (snd (analyze_lines lines h states lp)) = [].
Proof.
  induction lines as [|line lines IH]; intros h states lp; simpl; trivial.
  destruct (process_line h states line) as [[[| |] h1] states1]; trivial; apply IH.
Qed.

Lemma no_file_event_in_analyze_file (file : option FILE) (h : heap) (states : table) :
  filter is_file_event (snd (analyze_file file h states)) = [].
Proof.
  unfold analyze_file. destruct file as [f|]; trivial.
  destruct states; trivial. apply no_file_event_in_analyze_lines.
Qed.

Lemma process_files_file_events (fs : filesystem) (args : list cstring) :
  forall (h : heap) (states : table) (fp : Z),
    filter is_file_event (snd (process_files fs args h states fp))
    = flat_map (file_events fs) args.
Proof.
  induction args as [|path args IH]; intros h states fp; simpl; trivial.
  unfold file_events at 1. destruct (fs path) as [f|].
  - pose proof (no_file_event_in_analyze_file (Some f) h states) as Hev.
    destruct (analyze_file (Some f) h states) as [[[rc h1] states1] ev1].
    specialize (IH h1 states1 (if rc =? 0 then fp + 1 else fp)).
    destruct (process_files fs args h1 states1 _) as [[[h2 states2] fp2] ev2].
    simpl in *. rewrite filter_app, Hev. simpl. rewrite filter_app.
    destruct (rc =? 0); simpl; now rewrite IH.
  - specialize (IH h states fp).
    destruct (process_files fs args h states fp) as [[[h2 states2] fp2] ev2].
    simpl in *. now rewrite IH.
Qed.

Lemma no_file_event_in_report (states : table) :
  filter is_file_event (print_report states) = [].
Proof.
  unfold print_report. simpl. rewrite filter_app. simpl.
  assert (H : forall g : option climate_info -> list event,
             (forall s, filter is_file_event (g s) = []) ->
             filter is_file_event (flat_map g states) = []).
  { intros g Hg. induction states as [|s states IH]; simpl; trivial.
    now rewrite filter_app, Hg, IH. }
  rewrite !H; trivial; intros [info|]; reflexivity.
Qed.

(** X14.  Whatever happens while the files are processed, [main] tries to
    open each argument once, in the order of the command line, and
    closes every file it could open before it goes on to the next
    argument: a file on which [analyze_file] failed is closed like the
    others, and a file that could not be opened is not closed.  Without
    arguments no file is touched. *)
Theorem every_opened_file_is_closed
  (fs : filesystem) (h : heap) (argv : list cstring) :
  filter is_file_event (snd (main fs h argv))
  = if Z.of_nat (List.length argv) <? 2 then []
    else flat_map (file_events fs) (tl argv).
Proof.
  unfold main. destruct (Z.of_nat (List.length argv) <? 2); trivial.
  pose proof (process_files_file_events fs (tl argv) h (repeat None NUM_STATES) 0)
    as Hf.
  destruct (process_files fs (tl argv) h (repeat None NUM_STATES) 0)
    as [[[h' states] fp] ev].
  simpl in Hf.
  assert (Hnot : forall l, filter is_file_event (map opening_notice l) = []).
  { induction l as [|a l IHl]; simpl; trivial. }
  destruct (fp =? 0); cbn [snd]; rewrite !filter_app, Hnot, Hf.
  - simpl. apply app_nil_r.
  - rewrite no_file_event_in_report. simpl. apply app_nil_r.
Qed.

(** ** Rounding *)








(** ** The averages of the report *)





(** ** Streams put end to end *)

(** X16.  Reading streams put end to end, each made of complete lines
    (empty, or ending with a newline), and then one more stream, gives
    the lines of each in turn, over-long lines being cut at the same
    places: the loop reads from the concatenation of such files what it
    reads from one file after the other. *)
Theorem lines_of_concatenated_streams (parts : list FILE) (b : FILE) :
  Forall complete_lines parts ->
  read_lines (List.concat parts ++ b)
  = flat_map read_lines parts ++ read_lines b.
Proof.
  induction 1 as [|a parts Ha _ IH]; [reflexivity|].
  cbn [List.concat flat_map]. rewrite <- !app_assoc.
  rewrite read_lines_app by exact Ha. now rewrite IH.
Qed.

Lemma lines_of_concatenated_streams_witness :
  read_lines (List.concat [file_a; file_b] ++ scenario_A)
  = flat_map read_lines [file_a; file_b] ++ read_lines scenario_A.
Proof.
  apply lines_of_concatenated_streams.
  apply Forall_cons; [|apply Forall_cons; [|apply Forall_nil]].
  - right. exists (scenario_A ++ removelast line_TN). vm_compute. reflexivity.
  - right. exists (line_TN ++ scenario_A ++ removelast scenario_A).
    vm_compute. reflexivity.
Defined.
